(** * Review scraper: payload parsing, token codec and dedup gateway

    A shallow embedding of [scrapeReviews.ts].  The repository holds two
    variants of the script.  The first one checks which reviews are already
    stored before it inserts ([insertIfNew]) and reads every field of a
    review block from a fixed position; the second one recreates the table,
    inserts unconditionally and recovers the fields with the deep walkers
    ([walkDeep], [extractReviewText], [extractReviewId]).  They are embedded
    as the modules [CheckThenInsert] and [Unconditional]; the token codec is
    the same in both and lives in [Codec].

    JavaScript values are modelled as they are at run time: strings are
    sequences of UTF-16 code units, numbers are IEEE 754 binary64 values,
    and the result of [JSON.parse] is a tree of arrays and objects.

    Two things lie outside the script and are not computed here.  The depth
    of the call stack: the recursive walkers are modelled as total, so a
    theorem says what a call returns, or which [TypeError] or [URIError] it
    raises, when the engine does not run out of stack.  And the database:
    what a query resolves to, or that it is rejected, is an input of the
    model, and the script is described for every answer. *)

From Stdlib Require Import ZArith NArith List String Ascii Bool Lia.
From Stdlib Require Import Floats.SpecFloat.
From stdpp Require Import base option list gmap.

Local Open Scope Z_scope.

(* ================================================================== *)
(** * 1. Strings *)
(* ================================================================== *)

(** A JavaScript string is a finite sequence of 16-bit code units. *)
Definition jsstring := list N.

(** String literals of the source, written as Rocq strings (one byte per
    code unit; every literal of the script is ASCII). *)
Definition lit (s : string) : jsstring :=
  map N_of_ascii (list_ascii_of_string s).

(** The same, with a backquote standing for the double quote character, for
    literals that are JSON texts. *)
Definition litq (s : string) : jsstring :=
  map (fun c => if N.eqb c 96 then 34%N else c) (lit s).

Definition str_eqb (a b : jsstring) : bool := bool_decide (a = b).

(** [s.startsWith(p)] *)
Fixpoint startsWith (p s : jsstring) : bool :=
  match p, s with
  | [], _ => true
  | _ :: _, [] => false
  | c :: p', d :: s' => N.eqb c d && startsWith p' s'
  end.

(** [s.includes(p)] *)
Fixpoint includes (p s : jsstring) : bool :=
  startsWith p s ||
  match s with
  | [] => false
  | _ :: s' => includes p s'
  end.

(** [s.endsWith(p)], as the regular expressions [/p$/] need it ([$] without
    the [m] flag only matches at the end of the input). *)
Definition endsWith (p s : jsstring) : bool :=
  startsWith (rev p) (rev s).

(** The part of [s] before the first occurrence of [sep] (all of [s] when
    there is none) and the part after it. *)
Fixpoint before_first (sep s : jsstring) : jsstring :=
  if startsWith sep s then []
  else match s with
       | [] => []
       | c :: s' => c :: before_first sep s'
       end.

Fixpoint after_first (sep s : jsstring) : option jsstring :=
  if startsWith sep s then Some (drop (length sep) s)
  else match s with
       | [] => None
       | _ :: s' => after_first sep s'
       end.

(** [s.split(sep)[1]] for a non-empty separator: the text between the first
    and the second occurrence of [sep]; [undefined] ([None]) when [sep] does
    not occur. *)
Definition split_at_1 (sep s : jsstring) : option jsstring :=
  match after_first sep s with
  | None => None
  | Some rest => Some (before_first sep rest)
  end.

(** White space and line terminators of ECMAScript: what [trim] strips and
    what [\s] matches. *)
Definition isWhiteSpace (c : N) : bool :=
  ((9 <=? c) && (c <=? 13) || (c =? 32) || (c =? 160) || (c =? 5760)
   || (8192 <=? c) && (c <=? 8202) || (c =? 8232) || (c =? 8233)
   || (c =? 8239) || (c =? 8287) || (c =? 12288) || (c =? 65279))%N.

Fixpoint trimStart (s : jsstring) : jsstring :=
  match s with
  | c :: s' => if isWhiteSpace c then trimStart s' else s
  | [] => []
  end.

(** [s.trim()] *)
Definition trim (s : jsstring) : jsstring :=
  rev (trimStart (rev (trimStart s))).

Definition isDigit (c : N) : bool := ((48 <=? c) && (c <=? 57))%N.
Definition isAlpha (c : N) : bool :=
  ((65 <=? c) && (c <=? 90) || (97 <=? c) && (c <=? 122))%N.

(** Decimal digits of a natural number, as code units. *)
Fixpoint uint_units (u : Decimal.uint) : jsstring :=
  match u with
  | Decimal.Nil => []
  | Decimal.D0 u => 48%N :: uint_units u
  | Decimal.D1 u => 49%N :: uint_units u
  | Decimal.D2 u => 50%N :: uint_units u
  | Decimal.D3 u => 51%N :: uint_units u
  | Decimal.D4 u => 52%N :: uint_units u
  | Decimal.D5 u => 53%N :: uint_units u
  | Decimal.D6 u => 54%N :: uint_units u
  | Decimal.D7 u => 55%N :: uint_units u
  | Decimal.D8 u => 56%N :: uint_units u
  | Decimal.D9 u => 57%N :: uint_units u
  end.

Definition decimal (n : N) : jsstring := uint_units (N.to_uint n).

(** Value of a run of decimal digits. *)
Definition digits_value (ds : jsstring) : Z :=
  fold_left (fun acc c => 10 * acc + (Z.of_N c - 48)) ds 0.

(** Longest prefix of characters satisfying [p], and the rest. *)
Fixpoint span (p : N -> bool) (s : jsstring) : jsstring * jsstring :=
  match s with
  | c :: s' => if p c then let '(a, b) := span p s' in (c :: a, b) else ([], s)
  | [] => ([], [])
  end.

(* ================================================================== *)
(** * 2. Numbers *)
(* ================================================================== *)

(** A JavaScript number is an IEEE 754 binary64 value: the standard library's
    [spec_float] at precision 53 and maximal exponent 1024. *)
Definition num := spec_float.

(** The double nearest to [±d * 10^e10] (ties to even), as [JSON.parse] and
    the conversion of strings to numbers compute it. *)
Definition num_of_decimal (neg : bool) (d e10 : Z) : num :=
  match d with
  | Zpos p =>
      if 0 <=? e10
      then binary_round 53 1024 neg (Z.to_pos (Zpos p * 10 ^ e10)) 0
      else SFdiv 53 1024 (S754_finite neg p 0)
                         (S754_finite false (Z.to_pos (10 ^ (- e10))) 0)
  | _ => S754_zero neg
  end.

Definition num_of_Z (z : Z) : num := binary_normalize 53 1024 z 0 false.

(** Exact value of a finite number, as a fraction whose denominator is a
    power of two. *)
Definition num_frac (n : num) : option (Z * Z) :=
  match n with
  | S754_zero _ => Some (0, 1)
  | S754_finite s m e =>
      let a := if s then Zneg m else Zpos m in
      Some (if 0 <=? e then (a * 2 ^ e, 1) else (a, 2 ^ (- e)))
  | _ => None
  end.

(** Comparison of numbers by value; [None] when one of them is NaN. *)
Definition num_compare (a b : num) : option comparison :=
  match a, b with
  | S754_nan, _ | _, S754_nan => None
  | S754_infinity sa, S754_infinity sb =>
      Some (match sa, sb with
            | true, false => Lt
            | false, true => Gt
            | _, _ => Eq
            end)
  | S754_infinity s, _ => Some (if s then Lt else Gt)
  | _, S754_infinity s => Some (if s then Gt else Lt)
  | _, _ =>
      match num_frac a, num_frac b with
      | Some (na, da), Some (nb, db) => Some (Z.compare (na * db) (nb * da))
      | _, _ => None
      end
  end.

(** [a <= b], [a >= b] and [a === b] on numbers. *)
Definition num_leb (a b : num) : bool :=
  match num_compare a b with Some Lt | Some Eq => true | _ => false end.
Definition num_geb (a b : num) : bool :=
  match num_compare a b with Some Gt | Some Eq => true | _ => false end.
Definition num_eqb (a b : num) : bool :=
  match num_compare a b with Some Eq => true | _ => false end.

(** The integer a number is equal to, when it is finite and integral. *)
Definition num_to_Z (n : num) : option Z :=
  match num_frac n with
  | Some (a, d) => if a mod d =? 0 then Some (a / d) else None
  | None => None
  end.

(** [Number.isInteger(n)] *)
Definition Number_isInteger (n : num) : bool :=
  match num_to_Z n with Some _ => true | None => false end.

(** ** Number to string ([Number::toString], radix 10) *)

Definition ndigits (z : Z) : Z := Z.of_nat (length (decimal (Z.to_N z))).

(** For [0 < a < b]: the least [j >= 1] with [a * 10^j >= b]. *)
Fixpoint magnitude_below (fuel : nat) (a b j : Z) : Z :=
  match fuel with
  | O => j
  | S f => if b <=? a * 10 then j else magnitude_below f (a * 10) b (j + 1)
  end.

(** For a positive [a / b]: the [n] with [10^(n-1) <= a / b < 10^n].  The
    fuel covers the whole binary64 range (the least double is about
    [4.9e-324]). *)
Definition decimal_exponent (a b : Z) : Z :=
  if b <=? a then ndigits (a / b) else 1 - magnitude_below 400 a b 1.

(** The [k]-digit integer [s] with [s * 10^(n-k)] equal to [x = a / b] as a
    double, the one closest to [x] when there are several. *)
Definition try_digits (x : num) (a b n0 k : Z) : option (Z * Z) :=
  let p := k - n0 in
  let '(nu, de) := if 0 <=? p then (a * 10 ^ p, b) else (a, b * 10 ^ (- p)) in
  let lo := nu / de in
  let r := nu mod de in
  let valid c := num_eqb (num_of_decimal false c (n0 - k)) x in
  let up_closer :=
    match Z.compare (2 * r) de with
    | Lt => false
    | Gt => true
    | Eq => Z.odd lo
    end in
  let pick :=
    match valid lo, valid (lo + 1) with
    | true, true => Some (if up_closer then lo + 1 else lo)
    | true, false => Some lo
    | false, true => Some (lo + 1)
    | false, false => None
    end in
  match pick with
  | Some c => Some (if c =? 10 ^ k then (c / 10, n0 + 1) else (c, n0))
  | None => None
  end.

(** The least [k] with such an [s]; seventeen digits always suffice for a
    binary64 value. *)
Fixpoint shortest_digits (fuel : nat) (x : num) (a b n0 k : Z)
  : option (Z * Z * Z) :=
  match fuel with
  | O => None
  | S f =>
      match try_digits x a b n0 k with
      | Some (s, n) => Some (n, k, s)
      | None => shortest_digits f x a b n0 (k + 1)
      end
  end.

Definition zeros (n : Z) : jsstring := replicate (Z.to_nat n) 48%N.

Definition format_digits (n k s : Z) : jsstring :=
  let ds := decimal (Z.to_N s) in
  if (k <=? n) && (n <=? 21) then ds ++ zeros (n - k)
  else if (0 <? n) && (n <=? 21)
  then take (Z.to_nat n) ds ++ lit "." ++ drop (Z.to_nat n) ds
  else if (-6 <? n) && (n <=? 0) then lit "0." ++ zeros (- n) ++ ds
  else
    let e := n - 1 in
    let ex := (if e <? 0 then lit "e-" else lit "e+")
              ++ decimal (Z.to_N (Z.abs e)) in
    if k =? 1 then ds ++ ex
    else take 1 ds ++ lit "." ++ drop 1 ds ++ ex.

Definition Number_toString (x : num) : jsstring :=
  match x with
  | S754_nan => lit "NaN"
  | S754_zero _ => lit "0"
  | S754_infinity s => if s then lit "-Infinity" else lit "Infinity"
  | S754_finite s m e =>
      let '(a, b) := if 0 <=? e then (Zpos m * 2 ^ e, 1)
                     else (Zpos m, 2 ^ (- e)) in
      let n0 := decimal_exponent a b in
      let '(n, k, d) :=
        match shortest_digits 17 (S754_finite false m e) a b n0 1 with
        | Some r => r
        | None => (n0, 17, a * 10 ^ 17 / (b * 10 ^ n0))
        end in
      (if s then lit "-" else []) ++ format_digits n k d
  end.

(** ** String to number ([StringToNumber]) *)

Definition isHexDigit (c : N) : bool :=
  (isDigit c || (65 <=? c) && (c <=? 70) || (97 <=? c) && (c <=? 102))%N.

Definition hex_value (c : N) : Z :=
  (if isDigit c then Z.of_N c - 48
   else if (c <=? 70)%N then Z.of_N c - 55 else Z.of_N c - 87).

Definition radix_value (radix : Z) (ds : jsstring) : Z :=
  fold_left (fun acc c => radix * acc + hex_value c) ds 0.

(** [0x..], [0o..] and [0b..] literals. *)
Definition parse_nondecimal (t : jsstring) : option num :=
  match t with
  | 48%N :: c :: ds =>
      let lit_of (radix : Z) (ok : N -> bool) :=
        match ds with
        | [] => None
        | _ => if forallb ok ds then Some (num_of_Z (radix_value radix ds))
               else None
        end in
      if (c =? 120)%N || (c =? 88)%N then lit_of 16 isHexDigit
      else if (c =? 111)%N || (c =? 79)%N
      then lit_of 8 (fun d => (48 <=? d) && (d <=? 55))%N
      else if (c =? 98)%N || (c =? 66)%N
      then lit_of 2 (fun d => (48 <=? d) && (d <=? 49))%N
      else None
  | _ => None
  end.

(** An optional sign. *)
Definition take_sign (s : jsstring) : bool * jsstring :=
  match s with
  | 43%N :: r => (false, r)
  | 45%N :: r => (true, r)
  | _ => (false, s)
  end.

(** [digits [. digits] [e [sign] digits]] with at least one digit before the
    exponent; [strict] is the JSON form, which wants digits on both sides of
    the point and no superfluous leading zero. *)
Definition parse_unsigned_decimal (strict neg : bool) (s : jsstring)
  : option num :=
  let '(i, r1) := span isDigit s in
  let '(dot, f, r2) :=
    match r1 with
    | 46%N :: r => let '(f, r2) := span isDigit r in (true, f, r2)
    | _ => (false, [], r1)
    end in
  let mantissa_ok :=
    if strict
    then match i with
         | [] => false
         | [_] => true
         | c :: _ => negb (c =? 48)%N
         end && (negb dot || negb (bool_decide (f = [])))
    else negb (bool_decide (i = [])) || negb (bool_decide (f = [])) in
  let expo :=
    match r2 with
    | [] => Some 0
    | c :: r3 =>
        if (c =? 101)%N || (c =? 69)%N
        then let '(eneg, r4) := take_sign r3 in
             let '(ed, r5) := span isDigit r4 in
             match ed, r5 with
             | _ :: _, [] =>
                 Some (if eneg then - digits_value ed else digits_value ed)
             | _, _ => None
             end
        else None
    end in
  match expo with
  | Some e =>
      if mantissa_ok
      then Some (num_of_decimal neg (digits_value (i ++ f))
                                (e - Z.of_nat (length f)))
      else None
  | None => None
  end.

Definition parse_strdecimal (t : jsstring) : option num :=
  let '(neg, r) := take_sign t in
  if str_eqb r (lit "Infinity") then Some (S754_infinity neg)
  else parse_unsigned_decimal false neg r.

Definition StringToNumber (s : jsstring) : num :=
  match trim s with
  | [] => S754_zero false
  | t =>
      match parse_nondecimal t with
      | Some n => n
      | None =>
          match parse_strdecimal t with
          | Some n => n
          | None => S754_nan
          end
      end
  end.

(** A JSON number: [-? int frac? exp?]. *)
Definition parse_json_number (t : jsstring) : option num :=
  match t with
  | 45%N :: r => parse_unsigned_decimal true true r
  | _ => parse_unsigned_decimal true false t
  end.

(* ================================================================== *)
(** * 3. Values, exceptions and property access *)
(* ================================================================== *)

(** Run-time values: what [JSON.parse] builds, and [undefined].  An object
    keeps its members in source order; a later member with the same key
    overrides an earlier one. *)
#[warnings="-register-all"]
Inductive value :=
| VUndefined
| VNull
| VBool (b : bool)
| VNumber (n : num)
| VString (s : jsstring)
| VArray (items : list value)
| VObject (members : list (jsstring * value)).

(** The exceptions the modelled code can raise. *)
Inductive error := TypeError | URIError.

Inductive result (A : Type) :=
| Ok (a : A)
| Throw (e : error).
Arguments Ok {A} a.
Arguments Throw {A} e.

#[global] Instance result_ret : MRet result := fun A a => Ok a.
#[global] Instance result_bind : MBind result := fun A B f m =>
  match m with
  | Ok a => f a
  | Throw e => Throw e
  end.

(** [Array.isArray(v)] and [typeof v === 'string' / 'number'] *)
Definition isArray (v : value) : bool :=
  match v with VArray _ => true | _ => false end.
Definition isString (v : value) : bool :=
  match v with VString _ => true | _ => false end.
Definition isNumber (v : value) : bool :=
  match v with VNumber _ => true | _ => false end.

(** The value of the own property [key]: the last member with that key. *)
Fixpoint own_prop (key : jsstring) (members : list (jsstring * value))
  : option value :=
  match members with
  | [] => None
  | (k, v) :: rest =>
      match own_prop key rest with
      | Some w => Some w
      | None => if str_eqb k key then Some v else None
      end
  end.

(** The array index a property key denotes: its canonical decimal form. *)
Definition parse_index (key : jsstring) : option nat :=
  match key with
  | [] => None
  | [c] => if isDigit c then Some (N.to_nat (c - 48)) else None
  | c :: _ =>
      if forallb isDigit key && negb (c =? 48)%N
      then Some (Z.to_nat (digits_value key))
      else None
  end.

(** Property read [v[key]] and, for an [undefined] or [null] base, the
    optional read [v?.[key]].  A plain read of an [undefined] or [null] base
    raises; the script makes plain reads only under an [Array.isArray] test
    of the base, so that case does not arise.  The keys the script uses are
    decimal indices, ["length"] and the string forms of numbers, none of
    which names a property inherited from a prototype. *)
Definition getProp (v : value) (key : jsstring) : value :=
  match v with
  | VArray items =>
      if str_eqb key (lit "length")
      then VNumber (num_of_Z (Z.of_nat (length items)))
      else match parse_index key with
           | Some i => default VUndefined (items !! i)
           | None => VUndefined
           end
  | VString s =>
      if str_eqb key (lit "length")
      then VNumber (num_of_Z (Z.of_nat (length s)))
      else match parse_index key with
           | Some i => from_option (fun c => VString [c]) VUndefined (s !! i)
           | None => VUndefined
           end
  | VObject members => default VUndefined (own_prop key members)
  | _ => VUndefined
  end.

(** [v[i]] / [v?.[i]] for an index literal [i]. *)
Definition getIdx (v : value) (i : N) : value := getProp v (decimal i).

(** [ToBoolean] *)
Definition truthy (v : value) : bool :=
  match v with
  | VUndefined | VNull => false
  | VBool b => b
  | VNumber n =>
      match n with
      | S754_zero _ | S754_nan => false
      | _ => true
      end
  | VString s => negb (bool_decide (s = []))
  | VArray _ | VObject _ => true
  end.

(** [ToString].  An array is joined with commas ([undefined] and [null]
    elements give the empty string); an object gives ["[object Object]"],
    unless it has an own member named ["toString"]: that member, never
    callable in a JSON value, hides [Object.prototype.toString], and the
    conversion to a primitive ends in a [TypeError]. *)
Fixpoint ToString (v : value) : result jsstring :=
  match v with
  | VUndefined => Ok (lit "undefined")
  | VNull => Ok (lit "null")
  | VBool b => Ok (if b then lit "true" else lit "false")
  | VNumber n => Ok (Number_toString n)
  | VString s => Ok s
  | VArray items =>
      let piece (x : value) : result jsstring :=
        match x with
        | VUndefined | VNull => Ok []
        | _ => ToString x
        end in
      (fix join (l : list value) : result jsstring :=
         match l with
         | [] => Ok []
         | [x] => piece x
         | x :: rest =>
             s ← piece x; r ← join rest; Ok (s ++ lit "," ++ r)
         end) items
  | VObject members =>
      match own_prop (lit "toString") members with
      | Some _ => Throw TypeError
      | None => Ok (lit "[object Object]")
      end
  end.

(** [ToNumber]; arrays and objects go through the same conversion to a
    primitive as in [ToString]. *)
Definition ToNumber (v : value) : result num :=
  match v with
  | VUndefined => Ok S754_nan
  | VNull => Ok (S754_zero false)
  | VBool b => Ok (if b then num_of_Z 1 else S754_zero false)
  | VNumber n => Ok n
  | VString s => Ok (StringToNumber s)
  | VArray _ | VObject _ => s ← ToString v; Ok (StringToNumber s)
  end.

(** [v[k]] for a number [k]: the property key is the string form of [k]. *)
Definition getNum (v : value) (k : num) : value :=
  getProp v (Number_toString k).

(* ================================================================== *)
(** * 4. JSON.parse *)
(* ================================================================== *)

Inductive token :=
| TLBracket | TRBracket | TLBrace | TRBrace | TComma | TColon
| TString (s : jsstring)
| TNumber (n : num)
| TTrue | TFalse | TNull.

(** The lexer reads one code unit at a time.  A number or a word is the
    longest run of its characters, checked when the run ends: a run that
    goes on after a complete number or word is a syntax error in JSON as
    well.  Accumulators are reversed. *)
Inductive lexmode :=
| LIdle
| LWord (acc : jsstring)
| LNum (acc : jsstring)
| LStr (acc : jsstring)
| LEsc (acc : jsstring)
| LHex (acc : jsstring) (k : nat) (v : N).

Definition isJsonSpace (c : N) : bool :=
  ((c =? 9) || (c =? 10) || (c =? 13) || (c =? 32))%N.
Definition isLower (c : N) : bool := ((97 <=? c) && (c <=? 122))%N.
Definition isNumberChar (c : N) : bool :=
  (isDigit c || (c =? 45) || (c =? 43) || (c =? 46) || (c =? 101)
   || (c =? 69))%N.

Definition close_word (acc : jsstring) : option token :=
  let w := rev acc in
  if str_eqb w (lit "true") then Some TTrue
  else if str_eqb w (lit "false") then Some TFalse
  else if str_eqb w (lit "null") then Some TNull
  else None.

Definition close_num (acc : jsstring) : option token :=
  TNumber <$> parse_json_number (rev acc).

(** A code unit met between tokens. *)
Definition lex_idle (c : N) : option (lexmode * list token) :=
  if isJsonSpace c then Some (LIdle, [])
  else if (c =? 91)%N then Some (LIdle, [TLBracket])
  else if (c =? 93)%N then Some (LIdle, [TRBracket])
  else if (c =? 123)%N then Some (LIdle, [TLBrace])
  else if (c =? 125)%N then Some (LIdle, [TRBrace])
  else if (c =? 44)%N then Some (LIdle, [TComma])
  else if (c =? 58)%N then Some (LIdle, [TColon])
  else if (c =? 34)%N then Some (LStr [], [])
  else if isDigit c || (c =? 45)%N then Some (LNum [c], [])
  else if isLower c then Some (LWord [c], [])
  else None.

(** The character an escape sequence stands for. *)
Definition unescape (c : N) : option N :=
  (if (c =? 34) || (c =? 92) || (c =? 47) then Some c
   else if c =? 98 then Some 8
   else if c =? 102 then Some 12
   else if c =? 110 then Some 10
   else if c =? 114 then Some 13
   else if c =? 116 then Some 9
   else None)%N.

Fixpoint lex (m : lexmode) (s : jsstring) : option (list token) :=
  match s with
  | [] =>
      match m with
      | LIdle => Some []
      | LWord acc => t ← close_word acc; Some [t]
      | LNum acc => t ← close_num acc; Some [t]
      | _ => None
      end
  | c :: s' =>
      match m with
      | LIdle =>
          '(m', ts) ← lex_idle c; rest ← lex m' s'; Some (ts ++ rest)
      | LWord acc =>
          if isLower c then lex (LWord (c :: acc)) s'
          else t ← close_word acc;
               '(m', ts) ← lex_idle c; rest ← lex m' s'; Some (t :: ts ++ rest)
      | LNum acc =>
          if isNumberChar c then lex (LNum (c :: acc)) s'
          else t ← close_num acc;
               '(m', ts) ← lex_idle c; rest ← lex m' s'; Some (t :: ts ++ rest)
      | LStr acc =>
          if (c =? 34)%N
          then rest ← lex LIdle s'; Some (TString (rev acc) :: rest)
          else if (c =? 92)%N then lex (LEsc acc) s'
          else if (c <? 32)%N then None
          else lex (LStr (c :: acc)) s'
      | LEsc acc =>
          if (c =? 117)%N then lex (LHex acc 3 0%N) s'
          else d ← unescape c; lex (LStr (d :: acc)) s'
      | LHex acc k v =>
          if isHexDigit c
          then let v' := (16 * v + Z.to_N (hex_value c))%N in
               match k with
               | O => lex (LStr (v' :: acc)) s'
               | S k' => lex (LHex acc k' v') s'
               end
          else None
      end
  end.

(** The parser is a stack machine over the tokens.  A frame is an enclosing
    container under construction: the items of an array so far, or the
    members of an object so far with the key whose value is being read. *)
Inductive frame :=
| FArray (done : list value)
| FObject (done : list (jsstring * value)) (key : jsstring).

Inductive expect :=
| EValue
| EValueOrEnd
| EKeyOrEnd
| EKey (done : list (jsstring * value))
| EColon (done : list (jsstring * value)) (key : jsstring)
| EAfter (v : value).

Definition scalar_token (t : token) : option value :=
  match t with
  | TString s => Some (VString s)
  | TNumber n => Some (VNumber n)
  | TTrue => Some (VBool true)
  | TFalse => Some (VBool false)
  | TNull => Some VNull
  | _ => None
  end.

Definition parse_step (stk : list frame) (e : expect) (t : token)
  : option (list frame * expect) :=
  let start_value :=
    match t with
    | TLBracket => Some (FArray [] :: stk, EValueOrEnd)
    | TLBrace => Some (stk, EKeyOrEnd)
    | _ => v ← scalar_token t; Some (stk, EAfter v)
    end in
  match e with
  | EValue => start_value
  | EValueOrEnd =>
      match t, stk with
      | TRBracket, FArray _ :: stk' => Some (stk', EAfter (VArray []))
      | _, _ => start_value
      end
  | EKeyOrEnd =>
      match t with
      | TRBrace => Some (stk, EAfter (VObject []))
      | TString k => Some (stk, EColon [] k)
      | _ => None
      end
  | EKey done =>
      match t with
      | TString k => Some (stk, EColon done k)
      | _ => None
      end
  | EColon done k =>
      match t with
      | TColon => Some (FObject done k :: stk, EValue)
      | _ => None
      end
  | EAfter v =>
      match stk, t with
      | FArray done :: stk', TComma => Some (FArray (v :: done) :: stk', EValue)
      | FArray done :: stk', TRBracket =>
          Some (stk', EAfter (VArray (rev (v :: done))))
      | FObject done k :: stk', TComma => Some (stk', EKey ((k, v) :: done))
      | FObject done k :: stk', TRBrace =>
          Some (stk', EAfter (VObject (rev ((k, v) :: done))))
      | _, _ => None
      end
  end.

Fixpoint parse_tokens (stk : list frame) (e : expect) (ts : list token)
  : option value :=
  match ts with
  | [] =>
      match stk, e with
      | [], EAfter v => Some v
      | _, _ => None
      end
  | t :: ts' => '(stk', e') ← parse_step stk e t; parse_tokens stk' e' ts'
  end.

(** [JSON.parse(text)]; [None] stands for the [SyntaxError]. *)
Definition JSON_parse (text : jsstring) : option value :=
  ts ← lex LIdle text; parse_tokens [] EValue ts.

(* ================================================================== *)
(** * 5. What both variants share *)
(* ================================================================== *)

(** [type Endpoint = 'entities' | 'ugc'] *)
Inductive Endpoint := entities | ugc.

(** [raw.replace(XSSI, '').trim()] with [XSSI = /^\)\]\}'/]. *)
Definition XSSI : jsstring := lit ")]}'".

Definition strip_XSSI (raw : jsstring) : jsstring :=
  if startsWith XSSI raw then drop (length XSSI) raw else raw.

Definition cleaned (raw : jsstring) : jsstring := trim (strip_XSSI raw).

(** [s.startsWith('http')] *)
Definition isHttp (s : jsstring) : bool := startsWith (lit "http") s.

(** A [Set<string>] keeps its elements in insertion order; [add] of an
    element it already has changes nothing. *)
Definition set_add (s : jsstring) (set : list jsstring) : list jsstring :=
  if bool_decide (s ∈ set) then set else set ++ [s].

(** [data?.[2]] when it is an array, no blocks otherwise. *)
Definition blocksOf (data : value) : list value :=
  match getIdx data 2 with
  | VArray blocks => blocks
  | _ => []
  end.

(** [data?.[data.length - 1]]: nothing is evaluated for a [null] or
    [undefined] base; otherwise [data.length] is converted to a number,
    which can raise. *)
Definition lastElement (data : value) : result value :=
  match data with
  | VUndefined | VNull => Ok VUndefined
  | _ =>
      len ← ToNumber (getProp data (lit "length"));
      Ok (getNum data (SFsub 53 1024 len (num_of_Z 1)))
  end.

(** The next page token:
    [ep === 'ugc' ? (typeof data?.[1] === 'string' ? data[1] : null)
                  : (Array.isArray(data?.[data.length-1])
                       ? data[data.length-1][0] : null)] *)
Definition nextToken (data : value) (ep : Endpoint) : result value :=
  match ep with
  | ugc =>
      Ok (match getIdx data 1 with
          | VString s => VString s
          | _ => VNull
          end)
  | entities =>
      last ← lastElement data;
      if isArray last then last' ← lastElement data; Ok (getIdx last' 0)
      else Ok VNull
  end.

(** How an [await pg.query(...)] ends: the promise resolves, for the
    existence query with the [review_id] of every row of the result (the
    column is [text]), or it is rejected and the [await] raises.  The
    answer is the database's; the script is modelled for every answer. *)
Inductive answer :=
| Rows (review_ids : list jsstring)
| QueryError.

Definition resolves (a : answer) : bool :=
  match a with
  | Rows _ => true
  | QueryError => false
  end.

(* ================================================================== *)
(** * 6. The token codec *)
(* ================================================================== *)

Module Codec.

(** Characters [encodeURIComponent] leaves alone:
    [A-Z a-z 0-9 - _ . ! ~ * ' ( )]. *)
Definition unreserved (c : N) : bool :=
  (isAlpha c || isDigit c || (c =? 45) || (c =? 95) || (c =? 46)
   || (c =? 33) || (c =? 126) || (c =? 42) || (c =? 39) || (c =? 40)
   || (c =? 41))%N.

Definition hex_digit (n : N) : N :=
  (if n <? 10 then 48 + n else 55 + n)%N.

(** ["%XX"] for one octet. *)
Definition percent (b : N) : jsstring :=
  [37%N; hex_digit (b / 16); hex_digit (b mod 16)].

Definition utf8 (cp : N) : list N :=
  (if cp <? 128 then [cp]
   else if cp <? 2048 then [192 + cp / 64; 128 + cp mod 64]
   else if cp <? 65536
   then [224 + cp / 4096; 128 + (cp / 64) mod 64; 128 + cp mod 64]
   else [240 + cp / 262144; 128 + (cp / 4096) mod 64;
         128 + (cp / 64) mod 64; 128 + cp mod 64])%N.

Definition escape (cp : N) : jsstring := concat (map percent (utf8 cp)).

Definition isLead (c : N) : bool := ((55296 <=? c) && (c <=? 56319))%N.
Definition isTrail (c : N) : bool := ((56320 <=? c) && (c <=? 57343))%N.

(** [encodeURIComponent(s)]: a surrogate without its partner raises a
    [URIError]. *)
Fixpoint encodeURIComponent (s : jsstring) : result jsstring :=
  match s with
  | [] => Ok []
  | c :: s' =>
      if unreserved c then r ← encodeURIComponent s'; Ok (c :: r)
      else if isLead c then
        match s' with
        | d :: s'' =>
            if isTrail d
            then r ← encodeURIComponent s'';
                 Ok (escape ((c - 55296) * 1024 + (d - 56320) + 65536)%N
                     ++ r)
            else Throw URIError
        | [] => Throw URIError
        end
      else if isTrail c then Throw URIError
      else r ← encodeURIComponent s'; Ok (escape c ++ r)
  end.

(** The first match of [/tag[^!]*/] in [url]: what precedes it, the run of
    characters other than [!] after the tag, and what follows. *)
Fixpoint match_marker (tag url : jsstring)
  : option (jsstring * jsstring * jsstring) :=
  if startsWith tag url
  then let '(run, post) := span (fun c => negb (c =? 33)%N)
                                (drop (length tag) url) in
       Some ([], run, post)
  else match url with
       | [] => None
       | c :: url' =>
           '(pre, run, post) ← match_marker tag url';
           Some (c :: pre, run, post)
       end.

(** [url.replace(/tag[^!]*/, m => `tag${encodeURIComponent(t)}`)]: the
    callback only runs when the pattern matches. *)
Definition replace_marker (tag url t : jsstring) : result jsstring :=
  match match_marker tag url with
  | None => Ok url
  | Some (pre, _, post) =>
      e ← encodeURIComponent t; Ok (pre ++ tag ++ e ++ post)
  end.

Definition withEntitiesToken (url t : jsstring) : result jsstring :=
  replace_marker (lit "!3s") url t.

Definition withUgcToken (url t : jsstring) : result jsstring :=
  replace_marker (lit "!2s") url t.

End Codec.

(* ================================================================== *)
(** * 7. First variant: fixed positions, check then insert *)
(* ================================================================== *)

Module CheckThenInsert.

(** A parsed review, before the driver adds company, location and
    business URL.  [review_id] is whatever truthy value sits at
    [b[0][0]]. *)
Record Review := {
  review_id : value;
  author : jsstring;
  rating : option num;
  review_text : jsstring;
  review_date : jsstring;
  images : list jsstring
}.

Record ParseResult := { reviews : list Review; token : value }.

(** [walk(n, fn)]: calls [fn] on every string leaf, left to right.  The
    callbacks of the script update a variable they close over; here they
    transform a state of type [S]. *)
Fixpoint walk {S : Type} (fn : jsstring -> S -> S) (n : value) (st : S)
  : S :=
  match n with
  | VString s => fn s st
  | VArray items =>
      (fix each (l : list value) (st : S) : S :=
         match l with
         | [] => st
         | x :: l' => each l' (walk fn x st)
         end) items st
  | _ => st
  end.

(** [s => { if (!author && !s.startsWith('http')) author = s; }] *)
Definition firstText (s : jsstring) (author : jsstring) : jsstring :=
  if bool_decide (author = []) && negb (isHttp s) then s else author.

(** [s => { if (s.startsWith('http')) images.push(s); }] *)
Definition pushImage (s : jsstring) (images : list jsstring)
  : list jsstring :=
  if isHttp s then images ++ [s] else images.

(** [new Set(images)] *)
Definition newSet (l : list jsstring) : list jsstring :=
  fold_left (fun set s => set_add s set) l [].

(** [Array.isArray(b?.[2]) ? b[2][0] : b?.[4]] *)
Definition ratingRaw (b : value) : value :=
  if isArray (getIdx b 2) then getIdx (getIdx b 2) 0 else getIdx b 4.

(** The body of the loop over the blocks; [None] for a block the loop
    skips. *)
Definition parseBlock (b : value) : option Review :=
  if negb (isArray b) then None
  else
    let review_id := getIdx (getIdx b 0) 0 in
    if negb (truthy review_id) then None
    else
      let author := walk firstText (getIdx b 0) [] in
      let rating :=
        match ratingRaw b with
        | VNumber n => Some n
        | _ => None
        end in
      let review_date :=
        match getIdx b 1 with
        | VString s => s
        | _ => []
        end in
      let review_text := walk firstText b [] in
      let images := walk pushImage b [] in
      Some {| review_id := review_id;
              author := author;
              rating := rating;
              review_text := review_text;
              review_date := review_date;
              images := take 8 (newSet images) |}.

Definition parseBatch (raw : jsstring) (ep : Endpoint)
  : result ParseResult :=
  match JSON_parse (cleaned raw) with
  | None => Ok {| reviews := []; token := VNull |}
  | Some data =>
      let reviews := omap parseBlock (blocksOf data) in
      token ← nextToken data ep;
      Ok {| reviews := reviews; token := token |}
  end.

(** ** Storage *)

(** [interface ReviewRow]; the fields it shares with [Review] carry the
    prefix [row_].  The interface declares [review_id] a string; at run
    time a row carries whatever value the parser put there. *)
Record ReviewRow := {
  company : jsstring;
  location : jsstring;
  business_url : jsstring;
  row_review_id : value;
  row_author : jsstring;
  row_rating : option num;
  row_review_text : jsstring;
  row_review_date : jsstring;
  row_images : list jsstring
}.

(** The two statements [insertIfNew] sends to the database. *)
Inductive statement :=
| SelectExisting (ids : list value)
| InsertDoNothing (rows : list ReviewRow).

(** What a call did: the statements it sent, oldest first, and whether it
    returned ([false] when a rejected query raised). *)
Record call := { sent : list statement; returned : bool }.

(** [existing.has(id)], where [existing] is the [Set] of the identifiers
    that the query returned: they are strings, and a [Set] finds a value by
    [SameValueZero], so only a string can be found. *)
Definition has (existing : list jsstring) (id : value) : bool :=
  match id with
  | VString s => bool_decide (s ∈ existing)
  | _ => false
  end.

(** [insertIfNew(pg, rows)]; [selected] and [inserted] are what the
    database answers to the existence query and to the insert statement. *)
Definition insertIfNew (rows : list ReviewRow) (selected inserted : answer)
  : call :=
  match rows with
  | [] => {| sent := []; returned := true |}
  | _ =>
      let ids := row_review_id <$> rows in
      match selected with
      | QueryError => {| sent := [SelectExisting ids]; returned := false |}
      | Rows existing =>
          let fresh :=
            filter (fun r => has existing (row_review_id r) = false) rows in
          match fresh with
          | [] => {| sent := [SelectExisting ids]; returned := true |}
          | _ => {| sent := [SelectExisting ids; InsertDoNothing fresh];
                    returned := resolves inserted |}
          end
      end
  end.

(** [{ ...r, company, location, business_url: gmaps_url }], as
    [scrapePlace] builds the rows it hands to [insertIfNew]. *)
Definition toRow (co loc gmaps_url : jsstring) (r : Review) : ReviewRow :=
  {| company := co;
     location := loc;
     business_url := gmaps_url;
     row_review_id := review_id r;
     row_author := author r;
     row_rating := rating r;
     row_review_text := review_text r;
     row_review_date := review_date r;
     row_images := images r |}.

End CheckThenInsert.

(* ================================================================== *)
(** * 8. Second variant: deep walkers, unconditional insert *)
(* ================================================================== *)

Module Unconditional.

Record Review := {
  review_id : jsstring;
  author : jsstring;
  rating : option num;
  review_text : jsstring;
  review_date : jsstring;
  images : list jsstring
}.

Record ParseResult := { reviews : list Review; token : value }.

(** [walkDeep(node, strFn, numFn)]; the callbacks transform a state of
    type [S], which stands for the variables they close over. *)
Fixpoint walkDeep {S : Type} (strFn : jsstring -> S -> S)
         (numFn : num -> S -> S) (node : value) (st : S) : S :=
  match node with
  | VString s => strFn s st
  | VNumber n => numFn n st
  | VArray items =>
      (fix each (l : list value) (st : S) : S :=
         match l with
         | [] => st
         | v :: l' => each l' (walkDeep strFn numFn v st)
         end) items st
  | _ => st
  end.

(** [typeof lang === 'string' && /^[A-Za-z]{2}$/.test(lang)] *)
Definition isLang (v : value) : bool :=
  match v with
  | VString [a; b] => isAlpha a && isAlpha b
  | _ => false
  end.

(** [Array.isArray(next) && Array.isArray(next[0]) &&
     typeof next[0][0] === 'string'], with the string. *)
Definition wrappedText (next : value) : option jsstring :=
  if isArray next && isArray (getIdx next 0)
  then match getIdx (getIdx next 0) 0 with
       | VString s => Some s
       | _ => None
       end
  else None.

(** Pattern A: [node[i]] a language tag and [node[i+1]] a wrapped text. *)
Fixpoint patternA (node : list value) : option jsstring :=
  match node with
  | lang :: rest =>
      match rest with
      | next :: _ =>
          if isLang lang
          then match wrappedText next with
               | Some s => Some (trim s)
               | None => patternA rest
               end
          else patternA rest
      | [] => None
      end
  | [] => None
  end.

(** Pattern B: the last two elements are a one-element array holding a
    language tag and a wrapped text. *)
Definition patternB (node : list value) : option jsstring :=
  match rev node with
  | last :: pen :: _ =>
      match pen with
      | VArray [x] => if isLang x then trim <$> wrappedText last else None
      | _ => None
      end
  | _ => None
  end.

(** The inner [recurse] of [extractReviewText]; [None] is [null].  The
    [seen] set of the source holds the arrays already visited: the value
    is a tree and the recursion only descends, so no array is met twice
    and the test on [seen] never succeeds. *)
Fixpoint recurse (node : value) : option jsstring :=
  match node with
  | VArray items =>
      match patternA items with
      | Some s => Some s
      | None =>
          match patternB items with
          | Some s => Some s
          | None =>
              (fix dive (l : list value) : option jsstring :=
                 match l with
                 | [] => None
                 | child :: l' =>
                     match recurse child with
                     | Some hit => Some hit
                     | None => dive l'
                     end
                 end) items
          end
      end
  | _ => None
  end.

(** [recurse(block) || ''] *)
Definition extractReviewText (block : value) : jsstring :=
  default [] (recurse block).

Definition replyMarker : jsstring := lit "/customers/reviews/reply?p=".

(** The callback of the fallback scan,
    [s => { if (!postId && s.includes(marker)) postId = s.split('p=')[1] }];
    the state is [postId], [None] for [null]. *)
Definition findReply (s : jsstring) (postId : option jsstring)
  : option jsstring :=
  let unset :=
    match postId with
    | None | Some [] => true
    | Some _ => false
    end in
  if unset && includes replyMarker s then split_at_1 (lit "p=") s
  else postId.

(** [candidate !== pageToken] for a string [candidate]. *)
Definition differs (candidate : jsstring) (pageToken : value) : bool :=
  match pageToken with
  | VString t => negb (str_eqb candidate t)
  | _ => true
  end.

Definition extractReviewId (block pageToken : value) : jsstring :=
  let candidate := getIdx (getIdx block 0) 0 in
  let primary :=
    match candidate with
    | VString c => if differs c pageToken then Some c else None
    | _ => None
    end in
  match primary with
  | Some c => c
  | None =>
      let postId := walkDeep findReply (fun _ st => st) block None in
      match postId with
      | Some p => p
      | None =>
          match candidate with
          | VString c => c
          | _ => []
          end
      end
  end.

(** [/^[A-Za-z]{3}\s\d{4}$/] *)
Definition monthYear (s : jsstring) : bool :=
  match s with
  | [a; b; c; w; d1; d2; d3; d4] =>
      isAlpha a && isAlpha b && isAlpha c && isWhiteSpace w
      && isDigit d1 && isDigit d2 && isDigit d3 && isDigit d4
  | _ => false
  end.

(** [/^\d{1,2}\/\d{1,2}\/\d{4}$/] *)
Definition numericDate (s : jsstring) : bool :=
  let short (l : jsstring) :=
    bool_decide (length l = 1%nat) || bool_decide (length l = 2%nat) in
  let '(a, r1) := span isDigit s in
  match r1 with
  | 47%N :: r2 =>
      let '(b, r3) := span isDigit r2 in
      match r3 with
      | 47%N :: r4 =>
          short a && short b && bool_decide (length r4 = 4%nat)
          && forallb isDigit r4
      | _ => false
      end
  | _ => false
  end.

(** [/ago$|Yesterday$|^[A-Za-z]{3}\s\d{4}$|^\d{1,2}\/\d{1,2}\/\d{4}$/] *)
Definition isDateLike (s : jsstring) : bool :=
  endsWith (lit "ago") s || endsWith (lit "Yesterday") s
  || monthYear s || numericDate s.

(** The variables the two callbacks of [parseBatch] close over. *)
Record scan := {
  scan_rating : option num;
  scan_date : jsstring;
  scan_images : list jsstring
}.

Definition onString (s : jsstring) (st : scan) : scan :=
  if negb (isHttp s) && bool_decide (scan_date st = [])
  then
    if isDateLike s
    then {| scan_rating := scan_rating st;
            scan_date := s;
            scan_images := scan_images st |}
    else st
  else if isHttp s
  then {| scan_rating := scan_rating st;
          scan_date := scan_date st;
          scan_images := set_add s (scan_images st) |}
  else st.

(** [rating === null && Number.isInteger(n) && n >= 1 && n <= 5] *)
Definition isStar (n : num) : bool :=
  Number_isInteger n && num_geb n (num_of_Z 1) && num_leb n (num_of_Z 5).

Definition onNumber (n : num) (st : scan) : scan :=
  match scan_rating st with
  | None =>
      if isStar n
      then {| scan_rating := Some n;
              scan_date := scan_date st;
              scan_images := scan_images st |}
      else st
  | Some _ => st
  end.

(** [b[0][1][4][5][0]] when [b?.[0]?.[1]?.[4]?.[5]] is an array and that
    element a string. *)
Definition authorOf (b : value) : jsstring :=
  let names := getIdx (getIdx (getIdx (getIdx b 0) 1) 4) 5 in
  if isArray names
  then match getIdx names 0 with
       | VString s => s
       | _ => []
       end
  else [].

Definition parseBlock (pageToken b : value) : option Review :=
  if negb (isArray b) then None
  else
    let review_id := extractReviewId b pageToken in
    if bool_decide (review_id = []) then None
    else
      let author := authorOf b in
      let review_text := extractReviewText b in
      let st := walkDeep onString onNumber b
                  {| scan_rating := None; scan_date := [];
                     scan_images := [] |} in
      Some {| review_id := review_id;
              author := author;
              rating := scan_rating st;
              review_text := review_text;
              review_date := scan_date st;
              images := take 8 (scan_images st) |}.

Definition parseBatch (raw : jsstring) (ep : Endpoint)
  : result ParseResult :=
  match JSON_parse (cleaned raw) with
  | None => Ok {| reviews := []; token := VNull |}
  | Some data =>
      let reviews := omap (parseBlock (getIdx data 1)) (blocksOf data) in
      token ← nextToken data ep;
      Ok {| reviews := reviews; token := token |}
  end.

End Unconditional.

(* ================================================================== *)
(** * 8a. Second variant: the insert and the driver *)
(* ================================================================== *)

Module UnconditionalRun.

(** [interface ReviewRow] is the same in both variants. *)
Abbreviation ReviewRow := CheckThenInsert.ReviewRow.

(** The statement of [insert]: [INSERT ... VALUES ...] without a conflict
    clause. *)
Inductive statement :=
| Insert (rows : list ReviewRow).

(** What a call did: the statements it sent and whether it returned. *)
Record call := { sent : list statement; returned : bool }.

(** [insert(pg, rows)]; [inserted] is what the database answers. *)
Definition insert (rows : list ReviewRow) (inserted : answer) : call :=
  match rows with
  | [] => {| sent := []; returned := true |}
  | _ => {| sent := [Insert rows]; returned := resolves inserted |}
  end.

(** ** The driver *)

Record SourceRow := {
  company : jsstring;
  location : jsstring;
  gmaps_url : jsstring
}.

(** [{ ...r, company, location, business_url: gmaps_url }] *)
Definition toRow (src : SourceRow) (r : Unconditional.Review) : ReviewRow :=
  {| CheckThenInsert.company := company src;
     CheckThenInsert.location := location src;
     CheckThenInsert.business_url := gmaps_url src;
     CheckThenInsert.row_review_id := VString (Unconditional.review_id r);
     CheckThenInsert.row_author := Unconditional.author r;
     CheckThenInsert.row_rating := Unconditional.rating r;
     CheckThenInsert.row_review_text := Unconditional.review_text r;
     CheckThenInsert.row_review_date := Unconditional.review_date r;
     CheckThenInsert.row_images := Unconditional.images r |}.

(** [baseUrl.includes('listugcposts') ? 'ugc' : 'entities'] *)
Definition endpointOf (baseUrl : jsstring) : Endpoint :=
  if includes (lit "listugcposts") baseUrl then ugc else entities.

Definition tagOf (ep : Endpoint) : jsstring :=
  match ep with
  | entities => lit "!3s"
  | ugc => lit "!2s"
  end.

(** [ep === 'entities' ? withEntitiesToken(baseUrl, token)
                       : withUgcToken(baseUrl, token)], with the token as
    the parser left it: the callback of [replace], which converts the
    token to a string for [encodeURIComponent], only runs when the pattern
    matches. *)
Definition nextUrl (ep : Endpoint) (baseUrl : jsstring) (token : value)
  : result jsstring :=
  match Codec.match_marker (tagOf ep) baseUrl with
  | None => Ok baseUrl
  | Some _ =>
      t ← ToString token;
      match ep with
      | entities => Codec.withEntitiesToken baseUrl t
      | ugc => Codec.withUgcToken baseUrl t
      end
  end.

(** What [ctx.request.get] resolves to: [res.status()] and
    [res.text()].  Requests are taken to be answered. *)
Record APIResponse := { status : Z; text : jsstring }.

(** How the pagination loop ends: it leaves the loop with the rows it
    collected, an exception leaves it, or it waits for a response that the
    given list does not hold.  Each carries the URLs requested so far. *)
Inductive pagination :=
| Finished (all : list ReviewRow) (requested : list jsstring)
| Raised (e : error) (requested : list jsstring)
| Waiting (all : list ReviewRow) (requested : list jsstring).

(** [while (token) { ... }]; [responses] are the responses to the
    requests, in order. *)
Fixpoint paginate (src : SourceRow) (ep : Endpoint) (baseUrl : jsstring)
         (token : value) (all : list ReviewRow) (requested : list jsstring)
         (responses : list APIResponse) : pagination :=
  if truthy token then
    match nextUrl ep baseUrl token with
    | Throw e => Raised e requested
    | Ok url =>
        match responses with
        | [] => Waiting all (requested ++ [url])
        | res :: responses' =>
            if negb (status res =? 200) then Finished all (requested ++ [url])
            else
              match Unconditional.parseBatch (text res) ep with
              | Throw e => Raised e (requested ++ [url])
              | Ok parsed =>
                  paginate src ep baseUrl (Unconditional.token parsed)
                           (all ++ (toRow src <$> Unconditional.reviews parsed))
                           (requested ++ [url]) responses'
              end
        end
    end
  else Finished all requested.

(** How [scrapePlace] ends, from the first response on: it logs success,
    its [catch] clause runs, or it waits for a response.  Each carries the
    statements sent to the database and the URLs requested. *)
Inductive ending :=
| Completed (sent : list statement) (requested : list jsstring)
| Caught (sent : list statement) (requested : list jsstring)
| Pending (requested : list jsstring).

(** [scrapePlace], from the first response on: [baseUrl] is [first.url()],
    [firstText] is [first.text()], [responses] are the responses to the
    requests of the loop and [inserted] is the database's answer to the
    insert statement. *)
Definition scrapePlace (src : SourceRow) (baseUrl firstText : jsstring)
           (responses : list APIResponse) (inserted : answer) : ending :=
  let ep := endpointOf baseUrl in
  match Unconditional.parseBatch firstText ep with
  | Throw _ => Caught [] []
  | Ok parsed =>
      match paginate src ep baseUrl (Unconditional.token parsed)
                     (toRow src <$> Unconditional.reviews parsed) []
                     responses with
      | Finished all requested =>
          let c := insert all inserted in
          if returned c then Completed (sent c) requested
          else Caught (sent c) requested
      | Raised _ requested => Caught [] requested
      | Waiting _ requested => Pending requested
      end
  end.

End UnconditionalRun.

(* ================================================================== *)
(** * 9. Reference notions for the statements *)
(* ================================================================== *)

(** The string and number leaves of a value in depth-first, left-to-right
    order: the traversal order of the walkers. *)
Inductive leaf :=
| LeafString (s : jsstring)
| LeafNumber (n : num).

Fixpoint leaves (v : value) : list leaf :=
  match v with
  | VString s => [LeafString s]
  | VNumber n => [LeafNumber n]
  | VArray items =>
      (fix each (l : list value) : list leaf :=
         match l with
         | [] => []
         | x :: l' => leaves x ++ each l'
         end) items
  | _ => []
  end.

(** What a walker does at one leaf. *)
Definition visit {S : Type} (strFn : jsstring -> S -> S)
           (numFn : num -> S -> S) (st : S) (l : leaf) : S :=
  match l with
  | LeafString s => strFn s st
  | LeafNumber n => numFn n st
  end.

Definition leaf_string (l : leaf) : option jsstring :=
  match l with LeafString s => Some s | _ => None end.
Definition leaf_number (l : leaf) : option num :=
  match l with LeafNumber n => Some n | _ => None end.

Definition string_leaves (v : value) : list jsstring :=
  omap leaf_string (leaves v).

Definition number_leaves (v : value) : list num :=
  omap leaf_number (leaves v).

(** A number that is an integer between 1 and 5. *)
Definition starValue (n : num) : Prop :=
  exists z : Z, num_to_Z n = Some z /\ 1 <= z <= 5.

(** The rating [r] is the first number of [ns] that is an integer between 1
    and 5: absent when there is none. *)
Definition firstStar (ns : list num) (r : option num) : Prop :=
  match r with
  | None => Forall (fun n => ~ starValue n) ns
  | Some n =>
      exists pre post,
        ns = pre ++ n :: post /\ starValue n
        /\ Forall (fun m => ~ starValue m) pre
  end.

(** A list without its repetitions, each element at its first occurrence. *)
Fixpoint first_seen (l : list jsstring) : list jsstring :=
  match l with
  | [] => []
  | x :: l' => x :: filter (fun y => y <> x) (first_seen l')
  end.

(** The image URLs of a block as the specification describes them: the
    string leaves that start with [http], without repetitions, in order of
    first occurrence, at most eight. *)
Definition imagesOf (b : value) : list jsstring :=
  take 8 (first_seen (filter (fun s => isHttp s = true) (string_leaves b))).

(** [b?.[0]?.[1]?.[4]?.[5]], where the second variant looks for the author. *)
Definition authorPath (b : value) : value :=
  getIdx (getIdx (getIdx (getIdx b 0) 1) 4) 5.

(** The author as the specification describes it: the string at the fixed
    path when there is one, otherwise the first string leaf of the first
    sub-tree that does not start with [http], otherwise the empty string. *)
Definition authorSpec (b : value) : jsstring :=
  match authorPath b, getIdx (authorPath b) 0 with
  | VArray _, VString s => s
  | _, _ =>
      default [] (head (filter (fun s => isHttp s = false)
                               (string_leaves (getIdx b 0))))
  end.

(** The parts of a URL around the first match of the marker pattern, and
    what the codec is meant to produce from them. *)
Definition rebuilt (tag pre post e : jsstring) : jsstring :=
  pre ++ tag ++ e ++ post.

(** [u2], obtained from [url] by rewriting twice, the second time with the
    token [t2], differs from [url] in the token-bearing segment only: when
    the marker pattern matches in [url], with [pre] before the match and
    [post] after it, [u2] is [pre], the tag, the escaped [t2] and [post];
    when it does not match, [u2] is [url]. *)
Definition outside_preserved (tag url t2 u2 : jsstring) : Prop :=
  match Codec.match_marker tag url with
  | None => u2 = url
  | Some (pre, run, post) =>
      url = rebuilt tag pre post run
      /\ exists e2,
          Codec.encodeURIComponent t2 = Ok e2 /\ u2 = rebuilt tag pre post e2
  end.

(* ================================================================== *)
(** * 10. Sample inputs *)
(* ================================================================== *)

(** The scenario payload of the specification. *)
Definition scenarioPayload : jsstring :=
  litq ")]}'[,,[[`a`],`2024`,[1],[`hi`],[`http://img/1.png`]]],null]".

(** A well-formed payload with one block of the same shape. *)
Definition oneBlockPayload : jsstring :=
  litq ")]}'[null,null,[[[`a`],`2024`,[0],[`hi`],[`http://img/1.png`]]],null]".

(** A block whose identifier slot echoes the page token ["tok"]. *)
Definition echoBlock : value := VArray [VArray [VString (lit "tok")]].
Definition echoPayload : jsstring := litq "[0,`tok`,[[[`tok`]]]]".

(** A block with a rating of 7 at [b[2][0]]. *)
Definition sevenPayload : jsstring := litq "[0,`t`,[[[`id`],`d`,[7]]]]".

(** A block with two images seen several times and a rating. *)
Definition imagesPayload : jsstring :=
  litq "[0,`t`,[[[`id`],`3 days ago`,[4],[`http://a`,`http://b`,`http://a`]]]]".

(** What the two variants make of it under the [ugc] flavor. *)
Definition imagesDeep : Unconditional.ParseResult :=
  {| Unconditional.reviews :=
       [ {| Unconditional.review_id := lit "id";
            Unconditional.author := [];
            Unconditional.rating := Some (num_of_Z 4);
            Unconditional.review_text := [];
            Unconditional.review_date := lit "3 days ago";
            Unconditional.images := [lit "http://a"; lit "http://b"] |} ];
     Unconditional.token := VString (lit "t") |}.

Definition imagesFixed : CheckThenInsert.ParseResult :=
  {| CheckThenInsert.reviews :=
       [ {| CheckThenInsert.review_id := VString (lit "id");
            CheckThenInsert.author := lit "id";
            CheckThenInsert.rating := Some (num_of_Z 4);
            CheckThenInsert.review_text := lit "id";
            CheckThenInsert.review_date := lit "3 days ago";
            CheckThenInsert.images := [lit "http://a"; lit "http://b"] |} ];
     CheckThenInsert.token := VString (lit "t") |}.

(** A block with a name in its first sub-tree but nothing at the author
    path, and a block with an author at the path. *)
Definition namePayload : jsstring := litq "[0,`t`,[[[`id1`,`Alice`]]]]".
Definition nameBlock : value :=
  VArray [VArray [VString (lit "id1"); VString (lit "Alice")]].
Definition pathPayload : jsstring :=
  litq "[0,`t`,[[[`id1`,[0,0,0,0,[0,0,0,0,0,[`Alice`]]]]]]]".
Definition pathBlock : value :=
  VArray [VArray [VString (lit "id1");
                  VArray [VNull; VNull; VNull; VNull;
                          VArray [VNull; VNull; VNull; VNull; VNull;
                                  VArray [VString (lit "Alice")]]]]].

(** A request URL with the [entities] marker, and the same with the [ugc]
    marker. *)
Definition entitiesUrl : jsstring := lit "https://host/rpc?pb=!1sX!3sOLD!4m5".
Definition ugcUrl : jsstring := lit "https://host/rpc?pb=!1sX!2sOLD!4m5".

(** A row with a string identifier, and a batch with the same identifier
    twice. *)
Definition sampleRow (id : string) : CheckThenInsert.ReviewRow :=
  {| CheckThenInsert.company := lit "Acme Coffee";
     CheckThenInsert.location := lit "Downtown";
     CheckThenInsert.business_url := lit "https://maps.example/acme";
     CheckThenInsert.row_review_id := VString (lit id);
     CheckThenInsert.row_author := lit "Ann";
     CheckThenInsert.row_rating := Some (num_of_Z 5);
     CheckThenInsert.row_review_text := lit "fine";
     CheckThenInsert.row_review_date := lit "Yesterday";
     CheckThenInsert.row_images := [] |}.

Definition sampleBatch : list CheckThenInsert.ReviewRow :=
  [sampleRow "r1"; sampleRow "r2"; sampleRow "r1"].

(** A payload whose only block has the number 5 in its identifier slot, and
    the row that the first variant makes of it. *)
Definition numberPayload : jsstring := litq "[0,`t`,[[[5]]]]".

Definition numberRow : CheckThenInsert.ReviewRow :=
  {| CheckThenInsert.company := lit "Acme Coffee";
     CheckThenInsert.location := lit "Downtown";
     CheckThenInsert.business_url := lit "https://maps.example/acme";
     CheckThenInsert.row_review_id := VNumber (num_of_Z 5);
     CheckThenInsert.row_author := [];
     CheckThenInsert.row_rating := None;
     CheckThenInsert.row_review_text := [];
     CheckThenInsert.row_review_date := [];
     CheckThenInsert.row_images := [] |}.

(** A top-level object whose [length] cannot be converted to a number. *)
Definition lengthPayload : jsstring := litq "{`length`:{`toString`:1}}".

(* ================================================================== *)
(** * 10a. Further reference notions *)
(* ================================================================== *)

(** A string without a lone surrogate ([String.prototype.isWellFormed]). *)
Fixpoint wellFormed (s : jsstring) : bool :=
  match s with
  | [] => true
  | c :: s' =>
      if Codec.isLead c
      then match s' with
           | d :: s'' => Codec.isTrail d && wellFormed s''
           | [] => false
           end
      else negb (Codec.isTrail c) && wellFormed s'
  end.

(** The empty result of the [catch] branch of [parseBatch]. *)
Definition noReviews : Unconditional.ParseResult :=
  {| Unconditional.reviews := []; Unconditional.token := VNull |}.
Definition noReviewsFixed : CheckThenInsert.ParseResult :=
  {| CheckThenInsert.reviews := []; CheckThenInsert.token := VNull |}.

(** A block with a date, a rating and a review text behind a language tag. *)
Definition datedBlock : value :=
  VArray [VArray [VString (lit "rid")];
          VString (lit "http://x/ago");
          VString (lit "3 days ago");
          VString (lit "Yesterday");
          VString (lit "en");
          VArray [VArray [VString (lit " Great place ")]]].

(** What one element contributes when an array is joined into a string. *)
Definition joinPiece (x : value) : result jsstring :=
  match x with
  | VUndefined | VNull => Ok []
  | _ => ToString x
  end.

(** The last step of [recurse]: the first child in which it finds a text. *)
Definition diveInto (l : list value) : option jsstring :=
  (fix dive (l : list value) : option jsstring :=
     match l with
     | [] => None
     | child :: l' =>
         match Unconditional.recurse child with
         | Some hit => Some hit
         | None => dive l'
         end
     end) l.

(** A block with strings but no two-letter language tag. *)
Definition untaggedBlock : value :=
  VArray [VArray [VString (lit "rid")];
          VString (lit "eng");
          VArray [VArray [VString (lit "Great place")]]].

(** A block whose identifier slot echoes the page token, with a reply
    link. *)
Definition replyBlock : value :=
  VArray [VArray [VString (lit "tok")];
          VString (lit "https://h/customers/reviews/reply?p=ID77")].

(** A character that [encodeURIComponent] may put out: an unreserved one or
    the percent sign of an escape. *)
Definition urlSafe (c : N) : bool := Codec.unreserved c || (c =? 37)%N.

(** A token with a lone surrogate. *)
Definition brokenToken : jsstring := [67; 55357; 65]%N.

(** The blocks of a payload and the value in its token slot, as
    [parseBatch] reads them. *)
Definition blocksRead (raw : jsstring) : list value :=
  blocksOf (default VNull (JSON_parse (cleaned raw))).

Definition tokenSlot (raw : jsstring) : value :=
  getIdx (default VNull (JSON_parse (cleaned raw))) 1.

(** The blocks that give a record: arrays with an identifier. *)
Definition keptFixed (b : value) : bool :=
  isArray b && truthy (getIdx (getIdx b 0) 0).

Definition keptDeep (tok b : value) : bool :=
  isArray b && negb (bool_decide (Unconditional.extractReviewId b tok = [])).

(** What an accepted [INSERT ... ON CONFLICT (review_id) DO NOTHING] leaves
    of the table, keyed by its primary key: a row whose key is taken, by a
    stored row or by an earlier row of the statement, is skipped.  [key] is
    the text under which the database stores an identifier. *)
Definition insert_do_nothing (key : value -> jsstring)
           (tbl : gmap jsstring CheckThenInsert.ReviewRow)
           (rows : list CheckThenInsert.ReviewRow)
  : gmap jsstring CheckThenInsert.ReviewRow :=
  fold_left (fun t r =>
               match t !! key (CheckThenInsert.row_review_id r) with
               | Some _ => t
               | None => <[key (CheckThenInsert.row_review_id r) := r]> t
               end) rows tbl.

(** The table after the statements of a call, each accepted. *)
Definition tableAfter (key : value -> jsstring)
           (tbl : gmap jsstring CheckThenInsert.ReviewRow)
           (sent : list CheckThenInsert.statement)
  : gmap jsstring CheckThenInsert.ReviewRow :=
  fold_left (fun t st =>
               match st with
               | CheckThenInsert.SelectExisting _ => t
               | CheckThenInsert.InsertDoNothing rows =>
                   insert_do_nothing key t rows
               end) sent tbl.

(** The first row of a batch stored under the key [k]. *)
Definition firstWithKey (key : value -> jsstring) (k : jsstring)
           (rows : list CheckThenInsert.ReviewRow)
  : option CheckThenInsert.ReviewRow :=
  head (filter (fun r => key (CheckThenInsert.row_review_id r) = k) rows).

(** An identifier that is a string among those the existence query
    returned. *)
Definition reported (existing : list jsstring) (id : value) : Prop :=
  exists s, id = VString s /\ s ∈ existing.

(** A text for every identifier: a string as it is, a number as
    [String(n)], anything else as a fixed text. *)
Definition sampleKey (v : value) : jsstring :=
  match v with
  | VString s => s
  | VNumber n => Number_toString n
  | _ => lit "?"
  end.

(** The URLs that a run of [scrapePlace] requested, and the statements it
    sent. *)
Definition requestsOf (e : UnconditionalRun.ending) : list jsstring :=
  match e with
  | UnconditionalRun.Completed _ requested
  | UnconditionalRun.Caught _ requested
  | UnconditionalRun.Pending requested => requested
  end.

Definition sentBy (e : UnconditionalRun.ending)
  : list UnconditionalRun.statement :=
  match e with
  | UnconditionalRun.Completed sent _
  | UnconditionalRun.Caught sent _ => sent
  | UnconditionalRun.Pending _ => []
  end.

(** The URLs that the pagination loop requested. *)
Definition requestedIn (p : UnconditionalRun.pagination) : list jsstring :=
  match p with
  | UnconditionalRun.Finished _ requested
  | UnconditionalRun.Raised _ requested
  | UnconditionalRun.Waiting _ requested => requested
  end.

(** The rows of some pages, in order, for a place. *)
Definition rowsOf (src : UnconditionalRun.SourceRow)
           (pages : list Unconditional.ParseResult)
  : list CheckThenInsert.ReviewRow :=
  concat ((fun p => UnconditionalRun.toRow src <$> Unconditional.reviews p)
            <$> pages).

(** [pages] are the pages that a finished loop has read after a page with
    the token [token], and [n] is the number of its requests: the first
    responses, each with status 200, parsed; and the loop stopped after
    them because the last token is falsy, or because the next response
    has another status. *)
Definition readThrough (ep : Endpoint) (token : value)
           (responses : list UnconditionalRun.APIResponse)
           (pages : list Unconditional.ParseResult) (n : nat) : Prop :=
  Forall2 (fun res p =>
             UnconditionalRun.status res = 200
             /\ Unconditional.parseBatch (UnconditionalRun.text res) ep
                = Ok p)
          (take (length pages) responses) pages
  /\ ((n = length pages
       /\ exists t, last (token :: (Unconditional.token <$> pages)) = Some t
                    /\ truthy t = false)
      \/ (n = S (length pages)
          /\ exists res, responses !! length pages = Some res
                         /\ UnconditionalRun.status res <> 200)).

(** A place, the URL of its first response, and pages of reviews: one that
    names a next page, a last page with the same review, and a last page
    with another review. *)
Definition acme : UnconditionalRun.SourceRow :=
  {| UnconditionalRun.company := lit "Acme Coffee";
     UnconditionalRun.location := lit "Downtown";
     UnconditionalRun.gmaps_url := lit "https://maps.example/acme" |}.

Definition acmeUrl : jsstring :=
  lit "https://host/listugcposts?pb=!1sX!2sOLD!4m5".

Definition pageOne : jsstring := litq "[0,`t+1`,[[[`id`],`d`,[4]]]]".
Definition pageOther : jsstring := litq "[0,null,[[[`id2`],`d`,[5]]]]".

Definition ok200 (body : jsstring) : UnconditionalRun.APIResponse :=
  {| UnconditionalRun.status := 200; UnconditionalRun.text := body |}.

(** A token that cannot be converted to a string: [{"toString":1}]. *)
Definition opaqueToken : value :=
  VObject [(lit "toString", VNumber (num_of_Z 1))].

(* ================================================================== *)
(** * 11. The model on small inputs *)
(* ================================================================== *)

Example JSON_parse_nested :
  JSON_parse (litq " [1, `a\nA`, {`k`: null, `k`: [true]}, -2.5e1] ")
  = Some (VArray [VNumber (num_of_Z 1);
                  VString (lit "a" ++ [10%N; 65%N]);
                  VObject [(lit "k", VNull); (lit "k", VArray [VBool true])];
                  VNumber (num_of_decimal true 25 0)]).
Proof. vm_compute. reflexivity. Qed.

Example JSON_parse_escapes :
  JSON_parse (litq "`\u0041\u00e9\t\/\\`")
  = Some (VString [65; 233; 9; 47; 92]%N)
  /\ JSON_parse (litq "`\x`") = None
  /\ JSON_parse (litq "`\u12`") = None
  /\ JSON_parse (34 :: 10 :: [34])%N = None.
Proof. repeat split; vm_compute; reflexivity. Qed.

Example JSON_parse_rejects :
  JSON_parse (litq "[,1]") = None
  /\ JSON_parse (litq "[1,]") = None
  /\ JSON_parse (litq "[1 2]") = None
  /\ JSON_parse (litq "[01]") = None
  /\ JSON_parse (litq "{`a`:1,}") = None
  /\ JSON_parse (litq "[`a]") = None
  /\ JSON_parse (litq "nul") = None
  /\ JSON_parse (litq "[1]]") = None
  /\ JSON_parse [] = None.
Proof. repeat split; vm_compute; reflexivity. Qed.

Example getProp_cases :
  getIdx (VString (lit "abc")) 1 = VString (lit "b")
  /\ getIdx (VArray [VNull; VBool true]) 1 = VBool true
  /\ getIdx (VArray [VNull; VBool true]) 2 = VUndefined
  /\ getIdx (VObject [(lit "0", VNull); (lit "0", VBool true)]) 0 = VBool true
  /\ getIdx (VNumber (num_of_Z 7)) 0 = VUndefined
  /\ getProp (VArray [VNull; VNull]) (lit "length") = VNumber (num_of_Z 2).
Proof. repeat split; vm_compute; reflexivity. Qed.

Example Number_toString_cases :
  Number_toString (num_of_Z 12345) = lit "12345"
  /\ Number_toString (num_of_decimal false 1 (-1)) = lit "0.1"
  /\ Number_toString (num_of_decimal true 15 (-1)) = lit "-1.5"
  /\ Number_toString (num_of_decimal false 1 21) = lit "1e+21"
  /\ Number_toString (num_of_decimal false 1 (-7)) = lit "1e-7"
  /\ Number_toString (num_of_decimal false 5 (-324)) = lit "5e-324"
  /\ Number_toString (num_of_Z 9007199254740993) = lit "9007199254740992"
  /\ Number_toString (SFsub 53 1024 (S754_zero false) (num_of_Z 1))
     = lit "-1".
Proof. repeat split; vm_compute; reflexivity. Qed.

Example StringToNumber_cases :
  StringToNumber (lit " 12 ") = num_of_Z 12
  /\ StringToNumber [] = S754_zero false
  /\ StringToNumber (lit "0x1F") = num_of_Z 31
  /\ StringToNumber (lit "1e3") = num_of_Z 1000
  /\ StringToNumber (lit ".5") = num_of_decimal false 5 (-1)
  /\ StringToNumber (lit "-Infinity") = S754_infinity true
  /\ StringToNumber (lit "12px") = S754_nan
  /\ StringToNumber (lit "[object Object]") = S754_nan.
Proof. repeat split; vm_compute; reflexivity. Qed.

Example ToNumber_cases :
  ToNumber (VArray [VNumber (num_of_Z 3)]) = Ok (num_of_Z 3)
  /\ ToNumber (VArray []) = Ok (S754_zero false)
  /\ ToNumber (VArray [VNull; VNull]) = Ok S754_nan
  /\ ToNumber (VObject []) = Ok S754_nan
  /\ ToNumber (VObject [(lit "toString", VNull)]) = Throw TypeError
  /\ ToNumber (VArray [VObject [(lit "toString", VNull)]]) = Throw TypeError.
Proof. repeat split; vm_compute; reflexivity. Qed.

Example lastElement_cases :
  lastElement (VArray [VNull; VArray [VString (lit "t")]])
  = Ok (VArray [VString (lit "t")])
  /\ lastElement (VArray []) = Ok VUndefined
  /\ lastElement VNull = Ok VUndefined
  /\ lastElement (VString (lit "abc")) = Ok (VString (lit "c"))
  /\ lastElement (VObject [(lit "length", VString (lit "2"));
                           (lit "1", VBool true)])
     = Ok (VBool true)
  /\ lastElement (VObject [(lit "NaN", VBool true)]) = Ok (VBool true).
Proof. repeat split; vm_compute; reflexivity. Qed.

Example encodeURIComponent_cases :
  Codec.encodeURIComponent (lit "a b/c!~") = Ok (lit "a%20b%2Fc!~")
  /\ Codec.encodeURIComponent [233%N; 8364%N] = Ok (lit "%C3%A9%E2%82%AC")
  /\ Codec.encodeURIComponent [55357%N; 56832%N] = Ok (lit "%F0%9F%98%80")
  /\ Codec.encodeURIComponent [55357%N] = Throw URIError
  /\ Codec.encodeURIComponent [56832%N; 55357%N] = Throw URIError.
Proof. repeat split; vm_compute; reflexivity. Qed.

Example withEntitiesToken_cases :
  Codec.withEntitiesToken entitiesUrl (lit "CAES+w==")
  = Ok (lit "https://host/rpc?pb=!1sX!3sCAES%2Bw%3D%3D!4m5")
  /\ Codec.withEntitiesToken (lit "https://host/rpc") (lit "t")
     = Ok (lit "https://host/rpc")
  /\ Codec.withUgcToken entitiesUrl (lit "t") = Ok entitiesUrl.
Proof. repeat split; vm_compute; reflexivity. Qed.

Example isDateLike_cases :
  Unconditional.isDateLike (lit "3 days ago") = true
  /\ Unconditional.isDateLike (lit "Yesterday") = true
  /\ Unconditional.isDateLike (lit "Jan 2024") = true
  /\ Unconditional.isDateLike (lit "1/12/2024") = true
  /\ Unconditional.isDateLike (lit "2024") = false
  /\ Unconditional.isDateLike (lit "January 2024") = false
  /\ Unconditional.isDateLike (lit "123/1/2024") = false.
Proof. repeat split; vm_compute; reflexivity. Qed.

Example extractReviewText_cases :
  Unconditional.extractReviewText
    (VArray [VNull; VString (lit "en");
             VArray [VArray [VString (lit " Great place ")]]])
  = lit "Great place"
  /\ Unconditional.extractReviewText
       (VArray [VArray [VNumber (num_of_Z 1);
                        VArray [VString (lit "fr")];
                        VArray [VArray [VString (lit "Bien")]]]])
     = lit "Bien"
  /\ Unconditional.extractReviewText (VArray [VString (lit "plain")]) = [].
Proof. repeat split; vm_compute; reflexivity. Qed.

Example extractReviewId_cases :
  Unconditional.extractReviewId
    (VArray [VArray [VString (lit "rid")]]) (VString (lit "tok"))
  = lit "rid"
  /\ Unconditional.extractReviewId
       (VArray [VArray [VString (lit "tok")];
                VString (lit "https://h/customers/reviews/reply?p=ID77")])
       (VString (lit "tok"))
     = lit "ID77"
  /\ Unconditional.extractReviewId (VArray [VArray [VNumber (num_of_Z 1)]])
       VUndefined
     = [].
Proof. repeat split; vm_compute; reflexivity. Qed.

(* ================================================================== *)
(** * 12. Facts about values and walkers *)
(* ================================================================== *)

(** Induction on values that reaches the items of arrays. *)
Lemma value_ind_deep (P : value -> Prop) :
  P VUndefined -> P VNull ->
  (forall b, P (VBool b)) ->
  (forall n, P (VNumber n)) ->
  (forall s, P (VString s)) ->
  (forall items, Forall P items -> P (VArray items)) ->
  (forall members, P (VObject members)) ->
  forall v, P v.
Proof.
  intros Hu Hn Hb Hnum Hs Harr Hobj.
  fix IH 1.
  intros [ | | b | n | s | items | members];
    [exact Hu | exact Hn | apply Hb | apply Hnum | apply Hs | | apply Hobj].
  apply Harr.
  induction items as [|x xs IHxs]; constructor; [apply IH | exact IHxs].
Qed.

Section Walkers.
Context {S : Type}.
Variable strFn : jsstring -> S -> S.
Variable numFn : num -> S -> S.

(** [walkDeep] visits the leaves in traversal order. *)
Lemma walkDeep_leaves (v : value) (st : S) :
  Unconditional.walkDeep strFn numFn v st
  = fold_left (visit strFn numFn) (leaves v) st.
Proof.
  revert st.
  induction v as [ | | b | n | s | items IH | members] using value_ind_deep;
    intros st; try reflexivity.
  simpl. revert st.
  induction IH as [|x xs Hx _ IHxs]; intros st; [reflexivity|].
  rewrite fold_left_app, <- Hx. apply IHxs.
Qed.

(** [walk] visits the string leaves in traversal order. *)
Lemma walk_leaves (v : value) (st : S) :
  CheckThenInsert.walk strFn v st
  = fold_left (fun st s => strFn s st) (string_leaves v) st.
Proof.
  unfold string_leaves. revert st.
  induction v as [ | | b | n | s | items IH | members] using value_ind_deep;
    intros st; try reflexivity.
  simpl. revert st.
  induction IH as [|x xs Hx _ IHxs]; intros st; [reflexivity|].
  rewrite omap_app, fold_left_app, <- Hx. apply IHxs.
Qed.
End Walkers.

(** ** Numbers *)

Lemma num_frac_pos (n : num) (a d : Z) : num_frac n = Some (a, d) -> 0 < d.
Proof.
  destruct n as [s | s | | s m e]; simpl; try discriminate.
  - intros [= <- <-]. lia.
  - destruct (0 <=? e) eqn:He; intros [= <- <-]; [lia|].
    apply Z.pow_pos_nonneg; lia.
Qed.

Lemma num_to_Z_frac (n : num) (z : Z) :
  num_to_Z n = Some z ->
  exists a d, num_frac n = Some (a, d) /\ 0 < d /\ a = z * d.
Proof.
  unfold num_to_Z. destruct (num_frac n) as [[a d]|] eqn:Hf; [|discriminate].
  pose proof (num_frac_pos _ _ _ Hf) as Hd.
  destruct (a mod d =? 0) eqn:Hm; [|discriminate].
  intros [= <-]. exists a, d. repeat split; [assumption|].
  apply Z.eqb_eq in Hm.
  pose proof (Z.div_mod a d ltac:(lia)). lia.
Qed.

(** Two integral numbers compare as their integers do. *)
Lemma num_compare_integers (a b : num) (x y : Z) :
  num_to_Z a = Some x -> num_to_Z b = Some y ->
  num_compare a b = Some (x ?= y).
Proof.
  intros Ha Hb.
  destruct (num_to_Z_frac _ _ Ha) as (na & da & Hfa & Hda & ->).
  destruct (num_to_Z_frac _ _ Hb) as (nb & db & Hfb & Hdb & ->).
  assert (Hc : num_compare a b
               = match num_frac a, num_frac b with
                 | Some (na, da), Some (nb, db) =>
                     Some (na * db ?= nb * da)
                 | _, _ => None
                 end).
  { destruct a, b; try discriminate; reflexivity. }
  rewrite Hc, Hfa, Hfb. f_equal.
  replace (x * da * db) with (x * (da * db)) by ring.
  replace (y * db * da) with (y * (da * db)) by ring.
  symmetry. apply Zmult_compare_compat_r. lia.
Qed.

Lemma num_to_Z_of_1 : num_to_Z (num_of_Z 1) = Some 1.
Proof. vm_compute. reflexivity. Qed.

Lemma num_to_Z_of_5 : num_to_Z (num_of_Z 5) = Some 5.
Proof. vm_compute. reflexivity. Qed.

(** The test of the rating callback accepts exactly the integers 1 to 5. *)
Lemma isStar_spec (n : num) : Unconditional.isStar n = true <-> starValue n.
Proof.
  unfold Unconditional.isStar, starValue, Number_isInteger, num_geb, num_leb.
  destruct (num_to_Z n) as [z|] eqn:Hz.
  - rewrite (num_compare_integers _ _ _ _ Hz num_to_Z_of_1).
    rewrite (num_compare_integers _ _ _ _ Hz num_to_Z_of_5).
    simpl. split.
    + intros H. exists z. split; [reflexivity|].
      destruct (Z.compare_spec z 1), (Z.compare_spec z 5);
        try discriminate; lia.
    + intros (z' & [= <-] & H1 & H5).
      destruct (Z.compare_spec z 1), (Z.compare_spec z 5);
        try reflexivity; lia.
  - simpl. split; [discriminate|]. intros (z & Hz' & _). discriminate.
Qed.

(** ** Sets of strings in insertion order *)

Lemma filter_all {A} (P : A -> Prop) `{!forall x, Decision (P x)}
      (l : list A) :
  Forall P l -> filter P l = l.
Proof.
  induction 1 as [|x l Hx _ IH]; [reflexivity|].
  rewrite filter_cons_True by assumption. now f_equal.
Qed.

(** Adding the elements of [l] one by one appends those that are new, each
    once, in order of first occurrence. *)
Lemma fold_set_add (l acc : list jsstring) :
  fold_left (fun set s => set_add s set) l acc
  = acc ++ filter (fun y => y ∉ acc) (first_seen l).
Proof.
  revert acc. induction l as [|x l IH]; intros acc; simpl.
  - now rewrite app_nil_r.
  - rewrite IH. unfold set_add. case_bool_decide as Hx.
    + f_equal. rewrite filter_cons_False by (intros H; now apply H).
      rewrite list_filter_filter. apply list_filter_iff.
      intros y. split; [|tauto]. intros Hy. split; [exact Hy|].
      intros ->. now apply Hy.
    + rewrite filter_cons_True by assumption.
      rewrite <- app_assoc. simpl. do 2 f_equal.
      rewrite list_filter_filter. apply list_filter_iff.
      intros y. rewrite not_elem_of_app, list_elem_of_singleton. tauto.
Qed.

Lemma newSet_first_seen (l : list jsstring) :
  CheckThenInsert.newSet l = first_seen l.
Proof.
  unfold CheckThenInsert.newSet. rewrite fold_set_add. simpl.
  apply filter_all, Forall_forall. intros y _. apply not_elem_of_nil.
Qed.

Lemma first_seen_NoDup (l : list jsstring) : NoDup (first_seen l).
Proof.
  induction l as [|x l IH]; simpl; constructor.
  - rewrite list_elem_of_filter. intros [H _]. now apply H.
  - now apply NoDup_filter.
Qed.

Lemma imagesOf_length (b : value) : (length (imagesOf b) <= 8)%nat.
Proof. unfold imagesOf. rewrite length_take. lia. Qed.

Lemma imagesOf_NoDup (b : value) : NoDup (imagesOf b).
Proof.
  unfold imagesOf. eapply sublist_NoDup; [apply first_seen_NoDup|].
  apply sublist_take.
Qed.

(** ** The scan of a block in the second variant *)

Lemma head_filter_firstStar (ns : list num) :
  firstStar ns (head (filter (fun n => Unconditional.isStar n = true) ns)).
Proof.
  induction ns as [|n ns IH]; simpl.
  - constructor.
  - destruct (decide (Unconditional.isStar n = true)) as [Hn|Hn].
    + rewrite filter_cons_True by assumption. simpl.
      exists [], ns. repeat split; [now apply isStar_spec | constructor].
    + rewrite filter_cons_False by assumption.
      assert (Hn' : ~ starValue n) by (now rewrite <- isStar_spec).
      destruct (head (filter _ ns)) as [m|]; simpl in *.
      * destruct IH as (pre & post & -> & Hm & Hpre).
        exists (n :: pre), post. repeat split; [assumption|now constructor].
      * now constructor.
Qed.

Lemma scan_rating_fold (ls : list leaf) (st : Unconditional.scan) :
  Unconditional.scan_rating
    (fold_left (visit Unconditional.onString Unconditional.onNumber) ls st)
  = match Unconditional.scan_rating st with
    | Some r => Some r
    | None => head (filter (fun n => Unconditional.isStar n = true)
                           (omap leaf_number ls))
    end.
Proof.
  revert st. induction ls as [|[s|n] ls IH]; intros st; simpl.
  - now destruct (Unconditional.scan_rating st).
  - rewrite IH. unfold Unconditional.onString.
    destruct (negb (isHttp s) && bool_decide (Unconditional.scan_date st = [])),
      (Unconditional.isDateLike s), (isHttp s); reflexivity.
  - rewrite IH. unfold Unconditional.onNumber.
    destruct (Unconditional.scan_rating st) as [r|] eqn:Hr; simpl.
    + now rewrite Hr.
    + destruct (Unconditional.isStar n) eqn:Hn; simpl.
      * now rewrite filter_cons_True by assumption.
      * rewrite Hr. rewrite filter_cons_False; [reflexivity|congruence].
Qed.

Lemma scan_images_fold (ls : list leaf) (st : Unconditional.scan) :
  Unconditional.scan_images
    (fold_left (visit Unconditional.onString Unconditional.onNumber) ls st)
  = fold_left (fun set s => set_add s set)
              (filter (fun s => isHttp s = true) (omap leaf_string ls))
              (Unconditional.scan_images st).
Proof.
  revert st. induction ls as [|[s|n] ls IH]; intros st; simpl.
  - reflexivity.
  - rewrite IH. unfold Unconditional.onString.
    destruct (isHttp s) eqn:Hs; simpl.
    + now rewrite filter_cons_True by assumption.
    + rewrite filter_cons_False by congruence.
      destruct (bool_decide (Unconditional.scan_date st = [])),
        (Unconditional.isDateLike s); reflexivity.
  - rewrite IH. unfold Unconditional.onNumber.
    destruct (Unconditional.scan_rating st), (Unconditional.isStar n);
      reflexivity.
Qed.

(** ** The walks of the first variant *)

Lemma pushImage_fold (l : list jsstring) (acc : list jsstring) :
  fold_left (fun st s => CheckThenInsert.pushImage s st) l acc
  = acc ++ filter (fun s => isHttp s = true) l.
Proof.
  revert acc. induction l as [|s l IH]; intros acc; simpl.
  - now rewrite app_nil_r.
  - rewrite IH. unfold CheckThenInsert.pushImage.
    destruct (isHttp s) eqn:Hs.
    + rewrite filter_cons_True by assumption. now rewrite <- app_assoc.
    + now rewrite filter_cons_False by congruence.
Qed.

Lemma firstText_fold (l : list jsstring) (acc : jsstring) :
  fold_left (fun st s => CheckThenInsert.firstText s st) l acc
  = match acc with
    | [] => default [] (head (filter (fun s => s <> [] /\ isHttp s = false) l))
    | _ => acc
    end.
Proof.
  revert acc. induction l as [|s l IH]; intros acc; simpl.
  - now destruct acc.
  - rewrite IH. unfold CheckThenInsert.firstText.
    destruct acc as [|c acc]; simpl; [|reflexivity].
    destruct (isHttp s) eqn:Hs; simpl.
    + rewrite filter_cons_False by (intros [_ H]; congruence). reflexivity.
    + destruct s as [|c s].
      * rewrite filter_cons_False by (intros [H _]; congruence). reflexivity.
      * rewrite filter_cons_True by (split; congruence). reflexivity.
Qed.

(* ================================================================== *)
(** * 13. The batch parser *)
(* ================================================================== *)

(** ** Records come from blocks *)

Lemma deep_review_block raw ep res r :
  Unconditional.parseBatch raw ep = Ok res ->
  r ∈ Unconditional.reviews res ->
  exists data b,
    JSON_parse (cleaned raw) = Some data /\ b ∈ blocksOf data
    /\ Unconditional.parseBlock (getIdx data 1) b = Some r.
Proof.
  unfold Unconditional.parseBatch.
  destruct (JSON_parse (cleaned raw)) as [data|].
  - destruct (nextToken data ep) as [tok|e]; simpl; [|discriminate].
    intros [= <-]. simpl. rewrite list_elem_of_omap.
    intros (b & Hb & Hr). eauto.
  - intros [= <-]. simpl. intros H. now apply elem_of_nil in H.
Qed.

Lemma fixed_review_block raw ep res r :
  CheckThenInsert.parseBatch raw ep = Ok res ->
  r ∈ CheckThenInsert.reviews res ->
  exists data b,
    JSON_parse (cleaned raw) = Some data /\ b ∈ blocksOf data
    /\ CheckThenInsert.parseBlock b = Some r.
Proof.
  unfold CheckThenInsert.parseBatch.
  destruct (JSON_parse (cleaned raw)) as [data|].
  - destruct (nextToken data ep) as [tok|e]; simpl; [|discriminate].
    intros [= <-]. simpl. rewrite list_elem_of_omap.
    intros (b & Hb & Hr). eauto.
  - intros [= <-]. simpl. intros H. now apply elem_of_nil in H.
Qed.

(** Records and the blocks they are built from, pairwise and in order. *)
Lemma omap_Forall2 {A B : Type} (f : A -> option B) (keep : A -> bool)
      (l : list A) :
  (forall a, keep a = true <-> is_Some (f a)) ->
  Forall2 (fun a b => f a = Some b) (filter (fun a => keep a = true) l)
          (omap f l).
Proof.
  intros Hkeep. induction l as [|a l IH]; [constructor|].
  change (omap f (a :: l))
    with (match f a with Some b => b :: omap f l | None => omap f l end).
  destruct (f a) as [b|] eqn:Hfa.
  - rewrite filter_cons_True by (apply Hkeep; rewrite Hfa; eauto).
    now constructor.
  - rewrite filter_cons_False; [exact IH|].
    intros Hk. apply Hkeep in Hk. rewrite Hfa in Hk. now destruct Hk.
Qed.

Lemma keptDeep_parseBlock (tok b : value) :
  keptDeep tok b = true <-> is_Some (Unconditional.parseBlock tok b).
Proof.
  unfold keptDeep, Unconditional.parseBlock.
  destruct (isArray b); simpl.
  - destruct (bool_decide (Unconditional.extractReviewId b tok = []));
      simpl; split; eauto; try discriminate.
    intros [r Hr]. discriminate.
  - split; [discriminate | intros [r Hr]; discriminate].
Qed.

Lemma keptFixed_parseBlock (b : value) :
  keptFixed b = true <-> is_Some (CheckThenInsert.parseBlock b).
Proof.
  unfold keptFixed, CheckThenInsert.parseBlock.
  destruct (isArray b); simpl.
  - destruct (truthy (getIdx (getIdx b 0) 0)); simpl; split; eauto;
      try discriminate.
    intros [r Hr]. discriminate.
  - split; [discriminate | intros [r Hr]; discriminate].
Qed.

Lemma deep_records_blocks (raw : jsstring) (ep : Endpoint)
      (res : Unconditional.ParseResult) :
  Unconditional.parseBatch raw ep = Ok res ->
  Forall2 (fun b r => Unconditional.parseBlock (tokenSlot raw) b = Some r)
          (filter (fun b => keptDeep (tokenSlot raw) b = true)
                  (blocksRead raw))
          (Unconditional.reviews res).
Proof.
  unfold Unconditional.parseBatch, blocksRead, tokenSlot.
  destruct (JSON_parse (cleaned raw)) as [data|].
  - destruct (nextToken data ep) as [tok|e]; cbn [mbind result_bind];
      [|discriminate].
    intros [= <-]. cbn [Unconditional.reviews default].
    apply omap_Forall2, keptDeep_parseBlock.
  - intros [= <-]. constructor.
Qed.

Lemma fixed_records_blocks (raw : jsstring) (ep : Endpoint)
      (res : CheckThenInsert.ParseResult) :
  CheckThenInsert.parseBatch raw ep = Ok res ->
  Forall2 (fun b r => CheckThenInsert.parseBlock b = Some r)
          (filter (fun b => keptFixed b = true) (blocksRead raw))
          (CheckThenInsert.reviews res).
Proof.
  unfold CheckThenInsert.parseBatch, blocksRead.
  destruct (JSON_parse (cleaned raw)) as [data|].
  - destruct (nextToken data ep) as [tok|e]; cbn [mbind result_bind];
      [|discriminate].
    intros [= <-]. cbn [CheckThenInsert.reviews default].
    apply omap_Forall2, keptFixed_parseBlock.
  - intros [= <-]. constructor.
Qed.

Lemma deep_block_id (tok b : value) (r : Unconditional.Review) :
  Unconditional.parseBlock tok b = Some r ->
  Unconditional.review_id r = Unconditional.extractReviewId b tok.
Proof.
  unfold Unconditional.parseBlock.
  destruct (negb (isArray b)); [discriminate|].
  case_bool_decide; [discriminate|]. now intros [= <-].
Qed.

Lemma fixed_block_id (b : value) (r : CheckThenInsert.Review) :
  CheckThenInsert.parseBlock b = Some r ->
  CheckThenInsert.review_id r = getIdx (getIdx b 0) 0.
Proof.
  unfold CheckThenInsert.parseBlock.
  destruct (negb (isArray b)); [discriminate|].
  destruct (negb (truthy _)); [discriminate|]. now intros [= <-].
Qed.

(** ** What a block gives *)

Lemma deep_block_rating tok b r :
  Unconditional.parseBlock tok b = Some r ->
  firstStar (number_leaves b) (Unconditional.rating r).
Proof.
  unfold Unconditional.parseBlock.
  destruct (negb (isArray b)); [discriminate|].
  case_bool_decide; [discriminate|]. intros [= <-]. simpl.
  rewrite walkDeep_leaves, scan_rating_fold. simpl.
  apply head_filter_firstStar.
Qed.

Lemma deep_block_images tok b r :
  Unconditional.parseBlock tok b = Some r ->
  Unconditional.images r = imagesOf b.
Proof.
  unfold Unconditional.parseBlock.
  destruct (negb (isArray b)); [discriminate|].
  case_bool_decide; [discriminate|]. intros [= <-]. simpl.
  rewrite walkDeep_leaves, scan_images_fold. simpl.
  fold (CheckThenInsert.newSet
          (filter (fun s => isHttp s = true) (omap leaf_string (leaves b)))).
  now rewrite newSet_first_seen.
Qed.

Lemma fixed_block_images b r :
  CheckThenInsert.parseBlock b = Some r ->
  CheckThenInsert.images r = imagesOf b.
Proof.
  unfold CheckThenInsert.parseBlock.
  destruct (negb (isArray b)); [discriminate|].
  destruct (negb (truthy _)); [discriminate|]. intros [= <-]. simpl.
  now rewrite walk_leaves, pushImage_fold, newSet_first_seen.
Qed.

(** ** Stripping the prefix *)

Lemma startsWith_app (p s : jsstring) : startsWith p (p ++ s) = true.
Proof.
  induction p as [|c p IH]; simpl; [reflexivity|].
  now rewrite N.eqb_refl, IH.
Qed.

Lemma strip_XSSI_prefixed (raw : jsstring) : strip_XSSI (XSSI ++ raw) = raw.
Proof.
  unfold strip_XSSI. rewrite startsWith_app. apply drop_app_length.
Qed.

Lemma strip_XSSI_plain (raw : jsstring) :
  startsWith XSSI raw = false -> strip_XSSI raw = raw.
Proof. unfold strip_XSSI. now intros ->. Qed.

(** ** The identifier of a block *)

Lemma findReply_no_marker (ls : list leaf) :
  Forall (fun s => includes Unconditional.replyMarker s = false)
         (omap leaf_string ls) ->
  fold_left (visit Unconditional.findReply (fun _ st => st)) ls None = None.
Proof.
  induction ls as [|[s|n] ls IH]; simpl; intros H.
  - reflexivity.
  - inversion H as [|? ? Hs Hls]; subst.
    unfold Unconditional.findReply at 2. rewrite Hs. simpl. now apply IH.
  - now apply IH.
Qed.

Lemma str_eqb_refl (s : jsstring) : str_eqb s s = true.
Proof. unfold str_eqb. now apply bool_decide_eq_true. Qed.

(** C1, as stated, fails: the block [[["tok"]]] has the page token ["tok"]
    at [block[0][0]] and no reply link, yet [extractReviewId] returns
    ["tok"], not the empty string, and [parseBatch] keeps the block. *)
Lemma echoed_token_is_kept :
  getIdx (getIdx echoBlock 0) 0 = VString (lit "tok")
  /\ Forall (fun s => includes Unconditional.replyMarker s = false)
            (string_leaves echoBlock)
  /\ Unconditional.extractReviewId echoBlock (VString (lit "tok")) = lit "tok"
  /\ Unconditional.extractReviewId echoBlock (VString (lit "tok")) <> []
  /\ Unconditional.parseBatch echoPayload ugc
     = Ok {| Unconditional.reviews :=
               [ {| Unconditional.review_id := lit "tok";
                    Unconditional.author := [];
                    Unconditional.rating := None;
                    Unconditional.review_text := [];
                    Unconditional.review_date := [];
                    Unconditional.images := [] |} ];
             Unconditional.token := VString (lit "tok") |}.
Proof.
  split; [vm_compute; reflexivity|].
  split; [repeat constructor|].
  split; [vm_compute; reflexivity|].
  split; [vm_compute; discriminate|].
  vm_compute. reflexivity.
Qed.

(** C1, amended: when [block[0][0]] equals the page token and no string leaf
    holds the reply-link marker, [extractReviewId] returns that candidate
    when it is a string and the empty string otherwise; an array block is
    therefore dropped exactly when the page token is not a non-empty
    string. *)
Theorem extractReviewId_echo (block pageToken : value) :
  getIdx (getIdx block 0) 0 = pageToken ->
  Forall (fun s => includes Unconditional.replyMarker s = false)
         (string_leaves block) ->
  Unconditional.extractReviewId block pageToken
  = match pageToken with VString c => c | _ => [] end
  /\ (isArray block = true ->
      (Unconditional.parseBlock pageToken block = None
       <-> match pageToken with VString (_ :: _) => False | _ => True end)).
Proof.
  intros Hc Hno.
  assert (Hid : Unconditional.extractReviewId block pageToken
                = match pageToken with VString c => c | _ => [] end).
  { unfold Unconditional.extractReviewId. rewrite Hc.
    rewrite walkDeep_leaves, findReply_no_marker by exact Hno.
    destruct pageToken as [ | | b | n | c | items | members]; try reflexivity.
    simpl. now rewrite str_eqb_refl. }
  split; [exact Hid|].
  intros Harr. unfold Unconditional.parseBlock. rewrite Harr, Hid. simpl.
  destruct pageToken as [ | | b | n | [|c0 c] | items | members]; simpl;
    try (split; [trivial | reflexivity]).
  split; [discriminate | contradiction].
Qed.

(** On the echo block and its page token. *)
Lemma extractReviewId_echo_witness :
  Unconditional.extractReviewId echoBlock (VString (lit "tok")) = lit "tok"
  /\ (isArray echoBlock = true ->
      (Unconditional.parseBlock (VString (lit "tok")) echoBlock = None
       <-> False)).
Proof.
  apply (extractReviewId_echo echoBlock (VString (lit "tok"))).
  - vm_compute. reflexivity.
  - repeat constructor.
Defined.

(** ** The rating *)

(** C2 does not hold of the first variant, which takes the number at
    [b[2][0]] as it is: a 7 there becomes the rating, against the
    [rating] that [ReviewRow] declares (a star rating from 1 to 5). *)
Lemma fixed_position_rating_unchecked :
  CheckThenInsert.parseBatch sevenPayload ugc
  = Ok {| CheckThenInsert.reviews :=
            [ {| CheckThenInsert.review_id := VString (lit "id");
                 CheckThenInsert.author := lit "id";
                 CheckThenInsert.rating := Some (num_of_Z 7);
                 CheckThenInsert.review_text := lit "id";
                 CheckThenInsert.review_date := lit "d";
                 CheckThenInsert.images := [] |} ];
          CheckThenInsert.token := VString (lit "t") |}
  /\ ~ starValue (num_of_Z 7).
Proof.
  split; [vm_compute; reflexivity|].
  intros (z & Hz & Hr). vm_compute in Hz. injection Hz as <-. lia.
Qed.

(** X20: in the second variant the records of [parseBatch] are built, in
    order, from the blocks that are arrays with an identifier, and the
    rating of each is absent or an integer from 1 to 5: the first such
    number among the numeric leaves of its own block, in traversal
    order. *)
Theorem deep_rating_first_star (raw : jsstring) (ep : Endpoint)
        (res : Unconditional.ParseResult) :
  Unconditional.parseBatch raw ep = Ok res ->
  Forall2 (fun b r =>
             Unconditional.review_id r
             = Unconditional.extractReviewId b (tokenSlot raw)
             /\ (forall n, Unconditional.rating r = Some n -> starValue n)
             /\ firstStar (number_leaves b) (Unconditional.rating r))
          (filter (fun b => keptDeep (tokenSlot raw) b = true)
                  (blocksRead raw))
          (Unconditional.reviews res).
Proof.
  intros Hres. eapply Forall2_impl; [exact (deep_records_blocks _ _ _ Hres)|].
  intros b r Hp. cbv beta in Hp |- *.
  pose proof (deep_block_rating _ _ _ Hp) as Hfirst.
  split; [now apply deep_block_id|]. split; [|exact Hfirst].
  intros n Hn. rewrite Hn in Hfirst.
  destruct Hfirst as (pre & post & _ & Hstar & _). exact Hstar.
Qed.

(** On the images payload. *)
Lemma deep_rating_first_star_witness :
  Forall2 (fun b r =>
             Unconditional.review_id r
             = Unconditional.extractReviewId b (tokenSlot imagesPayload)
             /\ (forall n, Unconditional.rating r = Some n -> starValue n)
             /\ firstStar (number_leaves b) (Unconditional.rating r))
          (filter (fun b => keptDeep (tokenSlot imagesPayload) b = true)
                  (blocksRead imagesPayload))
          (Unconditional.reviews imagesDeep).
Proof.
  apply (deep_rating_first_star imagesPayload ugc imagesDeep).
  vm_compute. reflexivity.
Defined.

(** ** Malformed payloads *)

(** C3: when what is left of the input after the security prefix is removed
    (and white space trimmed) is not JSON, [parseBatch] returns no record
    and a [null] token, and raises nothing; in both variants. *)
Theorem parseBatch_malformed (raw : jsstring) (ep : Endpoint) :
  JSON_parse (cleaned raw) = None ->
  Unconditional.parseBatch raw ep
  = Ok {| Unconditional.reviews := []; Unconditional.token := VNull |}
  /\ CheckThenInsert.parseBatch raw ep
     = Ok {| CheckThenInsert.reviews := [];
             CheckThenInsert.token := VNull |}.
Proof.
  intros H. unfold Unconditional.parseBatch, CheckThenInsert.parseBatch.
  now rewrite H.
Qed.

(** On a prefixed HTML page. *)
Lemma parseBatch_malformed_witness :
  JSON_parse (cleaned (lit ")]}'<html>")) = None
  /\ Unconditional.parseBatch (lit ")]}'<html>") entities
     = Ok {| Unconditional.reviews := []; Unconditional.token := VNull |}
  /\ CheckThenInsert.parseBatch (lit ")]}'<html>") entities
     = Ok {| CheckThenInsert.reviews := [];
             CheckThenInsert.token := VNull |}.
Proof.
  split; [vm_compute; reflexivity|].
  apply (parseBatch_malformed (lit ")]}'<html>") entities).
  vm_compute. reflexivity.
Defined.

(** ** Images *)

(** C4: the records of [parseBatch] are built, in order, from the blocks
    that are arrays with an identifier, and in every record the image list
    has at most eight entries, no repetition, and is the list of the [http]
    string leaves of its own block in order of first occurrence, cut after
    the eighth; in both variants. *)
Theorem images_deduplicated :
  (forall raw ep res,
      Unconditional.parseBatch raw ep = Ok res ->
      Forall2 (fun b r =>
                 Unconditional.review_id r
                 = Unconditional.extractReviewId b (tokenSlot raw)
                 /\ (length (Unconditional.images r) <= 8)%nat
                 /\ NoDup (Unconditional.images r)
                 /\ Unconditional.images r = imagesOf b)
              (filter (fun b => keptDeep (tokenSlot raw) b = true)
                      (blocksRead raw))
              (Unconditional.reviews res))
  /\ (forall raw ep res,
         CheckThenInsert.parseBatch raw ep = Ok res ->
         Forall2 (fun b r =>
                    CheckThenInsert.review_id r = getIdx (getIdx b 0) 0
                    /\ (length (CheckThenInsert.images r) <= 8)%nat
                    /\ NoDup (CheckThenInsert.images r)
                    /\ CheckThenInsert.images r = imagesOf b)
                 (filter (fun b => keptFixed b = true) (blocksRead raw))
                 (CheckThenInsert.reviews res)).
Proof.
  split; intros raw ep res Hres.
  - eapply Forall2_impl; [exact (deep_records_blocks _ _ _ Hres)|].
    intros b r Hp. cbv beta in Hp |- *.
    rewrite (deep_block_images _ _ _ Hp).
    split; [now apply deep_block_id|].
    split; [apply imagesOf_length|]. split; [apply imagesOf_NoDup|].
    reflexivity.
  - eapply Forall2_impl; [exact (fixed_records_blocks _ _ _ Hres)|].
    intros b r Hp. cbv beta in Hp |- *.
    rewrite (fixed_block_images _ _ Hp).
    split; [now apply fixed_block_id|].
    split; [apply imagesOf_length|]. split; [apply imagesOf_NoDup|].
    reflexivity.
Qed.

(** On the images payload, parsed by both variants. *)
Lemma images_deduplicated_witness :
  Forall2 (fun b r =>
             Unconditional.review_id r
             = Unconditional.extractReviewId b (tokenSlot imagesPayload)
             /\ (length (Unconditional.images r) <= 8)%nat
             /\ NoDup (Unconditional.images r)
             /\ Unconditional.images r = imagesOf b)
          (filter (fun b => keptDeep (tokenSlot imagesPayload) b = true)
                  (blocksRead imagesPayload))
          (Unconditional.reviews imagesDeep)
  /\ Forall2 (fun b r =>
                CheckThenInsert.review_id r = getIdx (getIdx b 0) 0
                /\ (length (CheckThenInsert.images r) <= 8)%nat
                /\ NoDup (CheckThenInsert.images r)
                /\ CheckThenInsert.images r = imagesOf b)
             (filter (fun b => keptFixed b = true)
                     (blocksRead imagesPayload))
             (CheckThenInsert.reviews imagesFixed).
Proof.
  split.
  - apply (proj1 images_deduplicated imagesPayload ugc imagesDeep).
    vm_compute. reflexivity.
  - apply (proj2 images_deduplicated imagesPayload ugc imagesFixed).
    vm_compute. reflexivity.
Defined.

(** ** The scenario payload *)

(** C5, as stated, fails: the payload does not yield one record. *)
Lemma scenario_one_record_refuted :
  ~ exists r,
      Unconditional.parseBatch scenarioPayload entities
      = Ok {| Unconditional.reviews := [r]; Unconditional.token := VNull |}
      /\ Unconditional.review_id r = lit "a"
      /\ length (Unconditional.images r) = 1%nat
      /\ Unconditional.rating r = None.
Proof.
  intros (r & H & _). vm_compute in H. discriminate.
Qed.

(** C5, amended: after the prefix the payload starts with [[,,], which
    [JSON.parse] rejects, so [parseBatch] with flavor [entities] yields no
    record and an absent token. *)
Theorem scenario_rejected :
  JSON_parse (cleaned scenarioPayload) = None
  /\ Unconditional.parseBatch scenarioPayload entities
     = Ok {| Unconditional.reviews := []; Unconditional.token := VNull |}.
Proof. split; vm_compute; reflexivity. Qed.

(** The same block in a well-formed payload, with the elisions written as
    [null], one more level of brackets around the block and no number from 1
    to 5 in it, gives the record the scenario expects. *)
Example oneBlockPayload_parsed :
  Unconditional.parseBatch oneBlockPayload entities
  = Ok {| Unconditional.reviews :=
            [ {| Unconditional.review_id := lit "a";
                 Unconditional.author := [];
                 Unconditional.rating := None;
                 Unconditional.review_text := [];
                 Unconditional.review_date := [];
                 Unconditional.images := [lit "http://img/1.png"] |} ];
          Unconditional.token := VNull |}.
Proof. vm_compute. reflexivity. Qed.

(** ** The security prefix *)

(** C8: a payload that does not begin with the security prefix is parsed
    exactly as the same payload with the prefix put in front; in both
    variants. *)
Theorem parseBatch_prefix_irrelevant (raw : jsstring) (ep : Endpoint) :
  startsWith XSSI raw = false ->
  Unconditional.parseBatch (XSSI ++ raw) ep = Unconditional.parseBatch raw ep
  /\ CheckThenInsert.parseBatch (XSSI ++ raw) ep
     = CheckThenInsert.parseBatch raw ep.
Proof.
  intros H.
  unfold Unconditional.parseBatch, CheckThenInsert.parseBatch, cleaned.
  now rewrite strip_XSSI_prefixed, (strip_XSSI_plain _ H).
Qed.

(** On the images payload, which has no prefix. *)
Lemma parseBatch_prefix_irrelevant_witness :
  startsWith XSSI imagesPayload = false
  /\ Unconditional.parseBatch (XSSI ++ imagesPayload) ugc
     = Unconditional.parseBatch imagesPayload ugc
  /\ CheckThenInsert.parseBatch (XSSI ++ imagesPayload) ugc
     = CheckThenInsert.parseBatch imagesPayload ugc.
Proof.
  split; [vm_compute; reflexivity|].
  apply (parseBatch_prefix_irrelevant imagesPayload ugc).
  vm_compute. reflexivity.
Defined.

(** ** The author *)

(** C9, as stated, fails in both variants.  In the second one nothing is
    walked when the fixed path is missing: the block [[["id1","Alice"]]]
    gets the empty author, although its first sub-tree holds strings that
    are not URLs.  In the first one the fixed path is never read: the block
    with ["Alice"] at [b[0][1][4][5][0]] gets the author ["id1"]. *)
Lemma author_fallback_absent :
  (authorSpec nameBlock = lit "id1"
   /\ Unconditional.parseBatch namePayload ugc
      = Ok {| Unconditional.reviews :=
                [ {| Unconditional.review_id := lit "id1";
                     Unconditional.author := [];
                     Unconditional.rating := None;
                     Unconditional.review_text := [];
                     Unconditional.review_date := [];
                     Unconditional.images := [] |} ];
              Unconditional.token := VString (lit "t") |}
   /\ blocksOf (default VNull (JSON_parse (cleaned namePayload)))
      = [nameBlock])
  /\ (authorSpec pathBlock = lit "Alice"
      /\ CheckThenInsert.author <$> CheckThenInsert.parseBlock pathBlock
         = Some (lit "id1"))
  /\ authorSpec nameBlock <> [] /\ lit "id1" <> lit "Alice".
Proof.
  repeat split; try (vm_compute; reflexivity); vm_compute; discriminate.
Qed.

(** C9, amended: the records of [parseBatch] are built, in order, from the
    blocks that are arrays with an identifier.  In the second variant the
    author of a record is the string at [b[0][1][4][5][0]] of its block
    when [b[0][1][4][5]] is an array that starts with a string (it is then
    the author that the specification describes), and the empty string
    otherwise, with no walk; in the first variant it is the first non-empty
    string leaf of [b[0]] that does not start with [http], and the empty
    string when there is none. *)
Theorem author_by_variant :
  (forall raw ep res,
      Unconditional.parseBatch raw ep = Ok res ->
      Forall2 (fun b r =>
                 Unconditional.review_id r
                 = Unconditional.extractReviewId b (tokenSlot raw)
                 /\ (forall s,
                        isArray (authorPath b) = true ->
                        getIdx (authorPath b) 0 = VString s ->
                        Unconditional.author r = s /\ authorSpec b = s)
                 /\ (isArray (authorPath b) = false
                     \/ (forall s, getIdx (authorPath b) 0 <> VString s) ->
                     Unconditional.author r = []))
              (filter (fun b => keptDeep (tokenSlot raw) b = true)
                      (blocksRead raw))
              (Unconditional.reviews res))
  /\ (forall raw ep res,
         CheckThenInsert.parseBatch raw ep = Ok res ->
         Forall2 (fun b r =>
                    CheckThenInsert.review_id r = getIdx (getIdx b 0) 0
                    /\ CheckThenInsert.author r
                       = default []
                           (head (filter (fun s => s <> []
                                                   /\ isHttp s = false)
                                         (string_leaves (getIdx b 0)))))
                 (filter (fun b => keptFixed b = true) (blocksRead raw))
                 (CheckThenInsert.reviews res)).
Proof.
  split; intros raw ep res Hres.
  - eapply Forall2_impl; [exact (deep_records_blocks _ _ _ Hres)|].
    intros b r Hp. cbv beta in Hp |- *.
    split; [now apply deep_block_id|].
    assert (Ha : Unconditional.author r = Unconditional.authorOf b).
    { revert Hp. unfold Unconditional.parseBlock.
      destruct (negb (isArray b)); [discriminate|].
      case_bool_decide; [discriminate|]. now intros [= <-]. }
    rewrite Ha. unfold Unconditional.authorOf, authorSpec.
    fold (authorPath b). split.
    + intros s Harr Hs. rewrite Harr, Hs.
      destruct (authorPath b); try discriminate. now split.
    + intros [Hnarr | Hns]; [now rewrite Hnarr|].
      destruct (isArray (authorPath b)); [|reflexivity].
      destruct (getIdx (authorPath b) 0) as [ | | ? | ? | s | ? | ?];
        try reflexivity.
      now destruct (Hns s).
  - eapply Forall2_impl; [exact (fixed_records_blocks _ _ _ Hres)|].
    intros b r Hp. cbv beta in Hp |- *.
    split; [now apply fixed_block_id|].
    revert Hp. unfold CheckThenInsert.parseBlock.
    destruct (negb (isArray b)); [discriminate|].
    destruct (negb (truthy _)); [discriminate|]. intros [= <-]. simpl.
    now rewrite walk_leaves, firstText_fold.
Qed.

(** On the path payload in the second variant and on the name payload in
    the first. *)
Lemma author_by_variant_witness :
  Forall2 (fun b r =>
             Unconditional.review_id r
             = Unconditional.extractReviewId b (tokenSlot pathPayload)
             /\ (forall s,
                    isArray (authorPath b) = true ->
                    getIdx (authorPath b) 0 = VString s ->
                    Unconditional.author r = s /\ authorSpec b = s)
             /\ (isArray (authorPath b) = false
                 \/ (forall s, getIdx (authorPath b) 0 <> VString s) ->
                 Unconditional.author r = []))
          (filter (fun b => keptDeep (tokenSlot pathPayload) b = true)
                  (blocksRead pathPayload))
          [ {| Unconditional.review_id := lit "id1";
               Unconditional.author := lit "Alice";
               Unconditional.rating := None;
               Unconditional.review_text := [];
               Unconditional.review_date := [];
               Unconditional.images := [] |} ]
  /\ Forall2 (fun b r =>
                CheckThenInsert.review_id r = getIdx (getIdx b 0) 0
                /\ CheckThenInsert.author r
                   = default []
                       (head (filter (fun s => s <> [] /\ isHttp s = false)
                                     (string_leaves (getIdx b 0)))))
             (filter (fun b => keptFixed b = true) (blocksRead namePayload))
             [ {| CheckThenInsert.review_id := VString (lit "id1");
                  CheckThenInsert.author := lit "id1";
                  CheckThenInsert.rating := None;
                  CheckThenInsert.review_text := lit "id1";
                  CheckThenInsert.review_date := [];
                  CheckThenInsert.images := [] |} ].
Proof.
  split.
  - apply (proj1 author_by_variant pathPayload ugc
                 {| Unconditional.reviews := _;
                    Unconditional.token := VString (lit "t") |}).
    vm_compute. reflexivity.
  - apply (proj2 author_by_variant namePayload ugc
                 {| CheckThenInsert.reviews := _;
                    CheckThenInsert.token := VString (lit "t") |}).
    vm_compute. reflexivity.
Defined.

(** ** Totality *)

(** C10 does not hold of the code: with the flavor [entities] the token is
    read at [data[data.length - 1]], and for the top-level object
    [{"length":{"toString":1}}] the subtraction has to convert an object
    whose [toString] is not callable, which raises a [TypeError] outside the
    [try] block. *)
Theorem parseBatch_raises_on_length :
  JSON_parse (cleaned lengthPayload)
  = Some (VObject [(lit "length",
                    VObject [(lit "toString", VNumber (num_of_Z 1))])])
  /\ Unconditional.parseBatch lengthPayload entities = Throw TypeError.
Proof. split; vm_compute; reflexivity. Qed.

(* ================================================================== *)
(** * 14. The token codec *)
(* ================================================================== *)

Lemma startsWith_true (p s : jsstring) :
  startsWith p s = true -> s = p ++ drop (length p) s.
Proof.
  revert s. induction p as [|c p IH]; intros [|d s]; simpl;
    try reflexivity; try discriminate.
  intros [Hc Hp]%andb_true_iff. apply N.eqb_eq in Hc as ->.
  f_equal. now apply IH.
Qed.

(** Only the first [length p] characters matter to [startsWith p]. *)
Lemma startsWith_app_long (p s x : jsstring) :
  (length p <= length s)%nat -> startsWith p (s ++ x) = startsWith p s.
Proof.
  revert s. induction p as [|c p IH]; intros [|d s]; simpl; intros H;
    try reflexivity; try lia.
  f_equal. apply IH. lia.
Qed.

Lemma span_app (p : N -> bool) (a b : jsstring) :
  Forall (fun c => p c = true) a ->
  head b = None \/ (exists c, head b = Some c /\ p c = false) ->
  span p (a ++ b) = (a, b).
Proof.
  intros Ha Hb. induction Ha as [|c a Hc _ IH]; simpl.
  - destruct b as [|c b]; [reflexivity|].
    destruct Hb as [Hb|(c' & [= <-] & Hc)]; [discriminate|].
    simpl. now rewrite Hc.
  - now rewrite Hc, IH.
Qed.

Lemma span_spec (p : N -> bool) (s a b : jsstring) :
  span p s = (a, b) ->
  s = a ++ b /\ Forall (fun c => p c = true) a
  /\ (head b = None \/ exists c, head b = Some c /\ p c = false).
Proof.
  revert a b. induction s as [|c s IH]; simpl; intros a b.
  - intros [= <- <-]. repeat split; [constructor | now left].
  - destruct (p c) eqn:Hc.
    + destruct (span p s) as [a' b'] eqn:Hs. intros [= <- <-].
      destruct (IH _ _ eq_refl) as (-> & Ha & Hb).
      repeat split; [now constructor | exact Hb].
    + intros [= <- <-]. repeat split; [constructor | right; eauto].
Qed.

(** The match cuts the URL in three. *)
Lemma match_marker_cut (tag url pre run post : jsstring) :
  Codec.match_marker tag url = Some (pre, run, post) ->
  url = rebuilt tag pre post run.
Proof.
  unfold rebuilt. revert pre.
  induction url as [|c url IH]; intros pre; simpl.
  - destruct (startsWith tag []) eqn:Ht; [|discriminate].
    destruct (span _ _) as [r p] eqn:Hs. intros [= <- <- <-].
    apply span_spec in Hs as (Hs & _). rewrite <- Hs.
    now apply startsWith_true.
  - destruct (startsWith tag (c :: url)) eqn:Ht.
    + destruct (span _ _) as [r p] eqn:Hs. intros [= <- <- <-].
      apply span_spec in Hs as (Hs & _). simpl. rewrite <- Hs.
      now apply startsWith_true.
    + destruct (Codec.match_marker tag url) as [[[pre' run'] post']|];
        [|discriminate].
      simpl. intros [= <- <- <-]. simpl. f_equal. now apply IH.
Qed.

Lemma match_marker_unfold (tag url : jsstring) :
  Codec.match_marker tag url
  = if startsWith tag url
    then let '(run, post) := span (fun c => negb (c =? 33)%N)
                                  (drop (length tag) url) in
         Some ([], run, post)
    else match url with
         | [] => None
         | c :: url' =>
             '(pre, run, post) ← Codec.match_marker tag url';
             Some (c :: pre, run, post)
         end.
Proof. destruct url; reflexivity. Qed.

(** Putting another run without [!] between the same two parts moves
    neither the match nor what follows it. *)
Lemma match_marker_rebuilt (tag url pre run post e : jsstring) :
  Codec.match_marker tag url = Some (pre, run, post) ->
  Forall (fun c => negb (c =? 33)%N = true) e ->
  Codec.match_marker tag (rebuilt tag pre post e) = Some (pre, e, post).
Proof.
  unfold rebuilt. intros Hm He. revert pre Hm.
  assert (Hhead : forall s r p,
             span (fun c => negb (c =? 33)%N) s = (r, p) ->
             Codec.match_marker tag (tag ++ e ++ p) = Some ([], e, p)).
  { intros s r p Hs. apply span_spec in Hs as (_ & _ & Hp).
    rewrite match_marker_unfold, startsWith_app, drop_app_length.
    now rewrite (span_app _ e p He Hp). }
  induction url as [|c url IH]; intros pre; rewrite match_marker_unfold.
  - destruct (startsWith tag []) eqn:Ht; [|discriminate].
    destruct (span _ _) as [r p] eqn:Hs. intros [= <- <- <-]. simpl.
    eapply Hhead, Hs.
  - destruct (startsWith tag (c :: url)) eqn:Ht.
    + destruct (span _ _) as [r p] eqn:Hs. intros [= <- <- <-]. simpl.
      eapply Hhead, Hs.
    + destruct (Codec.match_marker tag url) as [[[pre' run'] post']|] eqn:Hu;
        [|discriminate].
      simpl. intros [= <- <- <-].
      pose proof (match_marker_cut _ _ _ _ _ Hu) as Hcut.
      unfold rebuilt in Hcut.
      assert (Hnot : startsWith tag ((c :: pre') ++ tag ++ e ++ post') = false).
      { rewrite (app_assoc (c :: pre') tag), startsWith_app_long
          by (rewrite length_app; lia).
        rewrite <- Ht, Hcut.
        rewrite (app_assoc pre' tag), app_comm_cons.
        symmetry. apply startsWith_app_long. simpl. rewrite length_app. lia. }
      rewrite match_marker_unfold, Hnot. simpl.
      rewrite (IH _ eq_refl). reflexivity.
Qed.

(** ** Escaping never produces the separator *)

#[local] Abbreviation no_bang := (Forall (fun c => negb (c =? 33)%N = true)).

Lemma hex_digit_no_bang (n : N) : negb (Codec.hex_digit n =? 33)%N = true.
Proof.
  apply negb_true_iff, N.eqb_neq. unfold Codec.hex_digit.
  destruct (n <? 10)%N; lia.
Qed.

Lemma escape_no_bang (cp : N) : no_bang (Codec.escape cp).
Proof.
  unfold Codec.escape. induction (Codec.utf8 cp) as [|b l IH]; simpl.
  - constructor.
  - repeat constructor; auto using hex_digit_no_bang.
Qed.

Lemma encodeURIComponent_cons (c : N) (s' : jsstring) :
  Codec.encodeURIComponent (c :: s')
  = if Codec.unreserved c
    then r ← Codec.encodeURIComponent s'; Ok (c :: r)
    else if Codec.isLead c then
      match s' with
      | d :: s'' =>
          if Codec.isTrail d
          then r ← Codec.encodeURIComponent s'';
               Ok (Codec.escape ((c - 55296) * 1024 + (d - 56320) + 65536)%N
                   ++ r)
          else Throw URIError
      | [] => Throw URIError
      end
    else if Codec.isTrail c then Throw URIError
    else r ← Codec.encodeURIComponent s'; Ok (Codec.escape c ++ r).
Proof. reflexivity. Qed.

Lemma encodeURIComponent_no_bang_aux (s : jsstring) :
  (forall e, Codec.encodeURIComponent s = Ok e -> no_bang s -> no_bang e)
  /\ (forall c e,
         Codec.encodeURIComponent (c :: s) = Ok e ->
         no_bang (c :: s) -> no_bang e).
Proof.
  induction s as [|d s [IH1 IH2]].
  - split.
    + intros e [= <-] _. constructor.
    + intros c e. simpl.
      destruct (Codec.unreserved c); [now intros [= <-]|].
      destruct (Codec.isLead c); [discriminate|].
      destruct (Codec.isTrail c); [discriminate|].
      intros [= <-] _. rewrite app_nil_r. apply escape_no_bang.
  - split; [apply IH2|].
    intros c e. rewrite encodeURIComponent_cons.
    destruct (Codec.unreserved c).
    + destruct (Codec.encodeURIComponent (d :: s)) as [r|] eqn:Hr;
        cbn [mbind result_bind]; [|discriminate].
      intros [= <-] H. inversion H; subst.
      constructor; [assumption|]. now apply (IH2 d).
    + destruct (Codec.isLead c).
      * destruct (Codec.isTrail d); [|discriminate].
        destruct (Codec.encodeURIComponent s) as [r|] eqn:Hr;
          cbn [mbind result_bind]; [|discriminate].
        intros [= <-] H. inversion H as [|? ? _ H']; subst.
        inversion H'; subst.
        apply Forall_app. split; [apply escape_no_bang | now apply IH1].
      * destruct (Codec.isTrail c); [discriminate|].
        destruct (Codec.encodeURIComponent (d :: s)) as [r|] eqn:Hr;
          cbn [mbind result_bind]; [|discriminate].
        intros [= <-] H. inversion H; subst.
        apply Forall_app. split; [apply escape_no_bang | now apply (IH2 d)].
Qed.

Lemma encodeURIComponent_no_bang (t e : jsstring) :
  Codec.encodeURIComponent t = Ok e -> no_bang t -> no_bang e.
Proof. apply encodeURIComponent_no_bang_aux. Qed.

(** ** Rewriting twice *)

Lemma replace_twice (tag url t1 t2 u1 u2 : jsstring) :
  no_bang t1 ->
  Codec.replace_marker tag url t1 = Ok u1 ->
  Codec.replace_marker tag u1 t2 = Ok u2 ->
  outside_preserved tag url t2 u2.
Proof.
  intros Ht1. unfold Codec.replace_marker, outside_preserved.
  destruct (Codec.match_marker tag url) as [[[pre run] post]|] eqn:Hm.
  - destruct (Codec.encodeURIComponent t1) as [e1|] eqn:He1;
      [|simpl; discriminate].
    simpl. intros [= <-].
    pose proof (encodeURIComponent_no_bang _ _ He1 Ht1) as Hno.
    fold (rebuilt tag pre post e1).
    rewrite (match_marker_rebuilt _ _ _ _ _ _ Hm Hno).
    destruct (Codec.encodeURIComponent t2) as [e2|]; [|simpl; discriminate].
    simpl. intros [= <-].
    split; [now apply match_marker_cut | now exists e2].
  - intros [= <-]. rewrite Hm. now intros [= <-].
Qed.

(** C6, as stated, fails: [encodeURIComponent] leaves [!] alone, so a token
    with a [!] in it ends the marker segment early, and the second rewrite
    leaves the rest of the first token in the URL. *)
Lemma double_rewrite_leaks_separator :
  Codec.withEntitiesToken (lit "x!3sOLD!4m") (lit "a!b")
  = Ok (lit "x!3sa!b!4m")
  /\ Codec.withEntitiesToken (lit "x!3sa!b!4m") (lit "c")
     = Ok (lit "x!3sc!b!4m")
  /\ Codec.match_marker (lit "!3s") (lit "x!3sOLD!4m")
     = Some (lit "x", lit "OLD", lit "!4m")
  /\ ~ outside_preserved (lit "!3s") (lit "x!3sOLD!4m") (lit "c")
                         (lit "x!3sc!b!4m").
Proof.
  repeat split; try (vm_compute; reflexivity).
  unfold outside_preserved.
  replace (Codec.match_marker (lit "!3s") (lit "x!3sOLD!4m"))
    with (Some (lit "x", lit "OLD", lit "!4m")) by (vm_compute; reflexivity).
  intros (_ & e2 & He & Hu). vm_compute in He. injection He as <-.
  vm_compute in Hu. discriminate.
Qed.

(** C6, amended: for a first token without the character [!], when both
    rewrites return, the URL rewritten with [t1] and then with [t2] is the
    original URL with only the marker segment replaced by the tag and the
    escaped [t2]: what precedes the segment and what follows it are those of
    the original URL, and a URL without the marker is unchanged.  For both
    flavors. *)
Theorem double_rewrite_outside_unchanged (url t1 t2 u1 u2 : jsstring) :
  33%N ∉ t1 ->
  (Codec.withEntitiesToken url t1 = Ok u1 ->
   Codec.withEntitiesToken u1 t2 = Ok u2 ->
   outside_preserved (lit "!3s") url t2 u2)
  /\ (Codec.withUgcToken url t1 = Ok u1 ->
      Codec.withUgcToken u1 t2 = Ok u2 ->
      outside_preserved (lit "!2s") url t2 u2).
Proof.
  intros Ht1.
  assert (Hno : no_bang t1).
  { apply Forall_forall. intros c Hc.
    apply negb_true_iff, N.eqb_neq. intros ->. contradiction. }
  split; intros H1 H2; eapply replace_twice; eassumption.
Qed.

(** On the two sample URLs, with the tokens [tok1] and [tok 2]. *)
Lemma double_rewrite_outside_unchanged_witness :
  (33%N ∉ lit "tok1")
  /\ outside_preserved (lit "!3s") entitiesUrl (lit "tok 2")
       (lit "https://host/rpc?pb=!1sX!3stok%202!4m5")
  /\ outside_preserved (lit "!2s") ugcUrl (lit "tok 2")
       (lit "https://host/rpc?pb=!1sX!2stok%202!4m5").
Proof.
  assert (H : 33%N ∉ lit "tok1").
  { intros H. vm_compute in H.
    repeat (inversion H as [|? ? ? H']; clear H; rename H' into H). }
  split; [exact H|]. split.
  - apply (proj1 (double_rewrite_outside_unchanged
                    entitiesUrl (lit "tok1") (lit "tok 2")
                    (lit "https://host/rpc?pb=!1sX!3stok1!4m5")
                    (lit "https://host/rpc?pb=!1sX!3stok%202!4m5") H));
      vm_compute; reflexivity.
  - apply (proj2 (double_rewrite_outside_unchanged
                    ugcUrl (lit "tok1") (lit "tok 2")
                    (lit "https://host/rpc?pb=!1sX!2stok1!4m5")
                    (lit "https://host/rpc?pb=!1sX!2stok%202!4m5") H));
      vm_compute; reflexivity.
Defined.

(* ================================================================== *)
(** * 15. The dedup gateway *)
(* ================================================================== *)

Section Gateway.
Import CheckThenInsert.

(** C7 does not hold of the code for an identifier that is not a string.
    The first variant's parser takes whatever truthy value sits at
    [b[0][0]], here the number 5; the database stores it as the text ["5"]
    and the existence query returns that text; the [Set] of returned texts
    does not hold the number, so the row counts as new and the insert
    statement is sent although the query reported the identifier: the
    second run sends what the first one sent. *)
Theorem insertIfNew_resends_number_id :
  (exists r,
      CheckThenInsert.parseBatch numberPayload ugc
      = Ok {| reviews := [r]; token := VString (lit "t") |}
      /\ toRow (lit "Acme Coffee") (lit "Downtown")
               (lit "https://maps.example/acme") r
         = numberRow)
  /\ Number_toString (num_of_Z 5) = lit "5"
  /\ insertIfNew [numberRow] (Rows []) (Rows [])
     = {| sent := [SelectExisting [VNumber (num_of_Z 5)];
                   InsertDoNothing [numberRow]];
          returned := true |}
  /\ insertIfNew [numberRow] (Rows [lit "5"]) (Rows [])
     = {| sent := [SelectExisting [VNumber (num_of_Z 5)];
                   InsertDoNothing [numberRow]];
          returned := true |}.
Proof.
  split; [|repeat split; vm_compute; reflexivity].
  eexists. split; vm_compute; reflexivity.
Qed.

(** The call on a batch of strings that the query reports, for
    comparison: nothing but the existence query is sent. *)
Example insertIfNew_sample :
  insertIfNew sampleBatch (Rows [lit "r2"; lit "r1"]) QueryError
  = {| sent := [SelectExisting [VString (lit "r1"); VString (lit "r2");
                                VString (lit "r1")]];
       returned := true |}
  /\ insertIfNew sampleBatch (Rows [lit "r2"]) (Rows [])
     = {| sent := [SelectExisting [VString (lit "r1"); VString (lit "r2");
                                   VString (lit "r1")];
                   InsertDoNothing [sampleRow "r1"; sampleRow "r1"]];
          returned := true |}
  /\ insertIfNew sampleBatch QueryError (Rows [])
     = {| sent := [SelectExisting [VString (lit "r1"); VString (lit "r2");
                                   VString (lit "r1")]];
          returned := false |}.
Proof. repeat split; vm_compute; reflexivity. Qed.

End Gateway.

(* ================================================================== *)
(** * 16. Further properties of the batch parser *)
(* ================================================================== *)

Lemma omap_length_le {A B} (f : A -> option B) (l : list A) :
  (length (omap f l) <= length l)%nat.
Proof.
  induction l as [|x l IH]; [simpl; lia|].
  change (omap f (x :: l))
    with (match f x with Some y => y :: omap f l | None => omap f l end).
  destruct (f x); simpl; lia.
Qed.

(** X1: every block gives at most one record, and a record always has an
    identifier: a non-empty string in the second variant, a truthy value in
    the first. *)
Theorem records_bounded_and_identified :
  (forall raw ep res,
      Unconditional.parseBatch raw ep = Ok res ->
      (length (Unconditional.reviews res)
       <= length (blocksOf (default VNull (JSON_parse (cleaned raw)))))%nat
      /\ Forall (fun r => Unconditional.review_id r <> [])
                (Unconditional.reviews res))
  /\ (forall raw ep res,
         CheckThenInsert.parseBatch raw ep = Ok res ->
         (length (CheckThenInsert.reviews res)
          <= length (blocksOf (default VNull (JSON_parse (cleaned raw)))))%nat
         /\ Forall (fun r => truthy (CheckThenInsert.review_id r) = true)
                   (CheckThenInsert.reviews res)).
Proof.
  split; intros raw ep res Hres; split.
  - unfold Unconditional.parseBatch in Hres.
    destruct (JSON_parse (cleaned raw)) as [data|]; simpl.
    + destruct (nextToken data ep); simpl in Hres; [|discriminate].
      injection Hres as <-. apply omap_length_le.
    + injection Hres as <-. apply Nat.le_0_l.
  - apply Forall_forall. intros r Hr.
    destruct (deep_review_block _ _ _ _ Hres Hr) as (data & b & _ & _ & Hp).
    unfold Unconditional.parseBlock in Hp.
    destruct (negb (isArray b)); [discriminate|].
    case_bool_decide as Hid; [discriminate|]. now injection Hp as <-.
  - unfold CheckThenInsert.parseBatch in Hres.
    destruct (JSON_parse (cleaned raw)) as [data|]; simpl.
    + destruct (nextToken data ep); simpl in Hres; [|discriminate].
      injection Hres as <-. apply omap_length_le.
    + injection Hres as <-. apply Nat.le_0_l.
  - apply Forall_forall. intros r Hr.
    destruct (fixed_review_block _ _ _ _ Hres Hr) as (data & b & _ & _ & Hp).
    unfold CheckThenInsert.parseBlock in Hp.
    destruct (negb (isArray b)); [discriminate|].
    destruct (negb (truthy _)) eqn:Ht; [discriminate|].
    injection Hp as <-. simpl. now apply negb_false_iff.
Qed.

Lemma records_bounded_and_identified_witness :
  ((length (Unconditional.reviews imagesDeep)
    <= length (blocksOf (default VNull (JSON_parse (cleaned imagesPayload)))))%nat
   /\ Forall (fun r => Unconditional.review_id r <> [])
             (Unconditional.reviews imagesDeep))
  /\ ((length (CheckThenInsert.reviews imagesFixed)
       <= length (blocksOf (default VNull
                                    (JSON_parse (cleaned imagesPayload)))))%nat
      /\ Forall (fun r => truthy (CheckThenInsert.review_id r) = true)
                (CheckThenInsert.reviews imagesFixed)).
Proof.
  split.
  - apply (proj1 records_bounded_and_identified imagesPayload ugc imagesDeep).
    vm_compute. reflexivity.
  - apply (proj2 records_bounded_and_identified imagesPayload ugc imagesFixed).
    vm_compute. reflexivity.
Defined.

(** ** The date *)

Lemma isDateLike_nonempty (s : jsstring) :
  Unconditional.isDateLike s = true -> s <> [].
Proof. intros H ->. vm_compute in H. discriminate. Qed.

Lemma scan_date_fold (ls : list leaf) (st : Unconditional.scan) :
  Unconditional.scan_date
    (fold_left (visit Unconditional.onString Unconditional.onNumber) ls st)
  = match Unconditional.scan_date st with
    | [] => default [] (head (filter
                                (fun s => isHttp s = false
                                          /\ Unconditional.isDateLike s = true)
                                (omap leaf_string ls)))
    | d => d
    end.
Proof.
  revert st. induction ls as [|[s|n] ls IH]; intros st; simpl.
  - now destruct (Unconditional.scan_date st).
  - rewrite IH. unfold Unconditional.onString.
    destruct (isHttp s) eqn:Hh; simpl.
    + rewrite filter_cons_False by (intros [H _]; congruence). reflexivity.
    + destruct (Unconditional.scan_date st) as [|c d] eqn:Hd; simpl.
      * destruct (Unconditional.isDateLike s) eqn:Hl; simpl.
        -- rewrite filter_cons_True by (split; assumption). simpl.
           pose proof (isDateLike_nonempty _ Hl). now destruct s.
        -- rewrite Hd.
           rewrite filter_cons_False by (intros [_ H]; congruence).
           reflexivity.
      * now rewrite Hd.
  - rewrite IH. unfold Unconditional.onNumber.
    destruct (Unconditional.scan_rating st), (Unconditional.isStar n);
      reflexivity.
Qed.

(** X2: in the second variant the date of a record is the first string leaf of
    its block, in traversal order, that does not start with [http] and has
    one of the date shapes; it is empty when the block has none. *)
Theorem review_date_first_dated_leaf (tok b : value) (r : Unconditional.Review) :
  Unconditional.parseBlock tok b = Some r ->
  Unconditional.review_date r
  = default [] (head (filter (fun s => isHttp s = false
                                       /\ Unconditional.isDateLike s = true)
                             (string_leaves b))).
Proof.
  unfold Unconditional.parseBlock.
  destruct (negb (isArray b)); [discriminate|].
  case_bool_decide; [discriminate|]. intros [= <-]. simpl.
  now rewrite walkDeep_leaves, scan_date_fold.
Qed.

Lemma review_date_first_dated_leaf_witness :
  exists r,
    Unconditional.parseBlock VNull datedBlock = Some r
    /\ Unconditional.review_date r = lit "3 days ago".
Proof.
  destruct (Unconditional.parseBlock VNull datedBlock) as [r|] eqn:Hr;
    [|vm_compute in Hr; discriminate].
  exists r. split; [reflexivity|].
  rewrite (review_date_first_dated_leaf _ _ _ Hr). vm_compute. reflexivity.
Defined.

(** ** When the parser returns *)

Lemma ToString_array_one (x : value) :
  ToString (VArray [x]) = joinPiece x.
Proof. reflexivity. Qed.

Lemma ToString_array_more (x y : value) (ys : list value) :
  ToString (VArray (x :: y :: ys))
  = s ← joinPiece x; r ← ToString (VArray (y :: ys)); Ok (s ++ lit "," ++ r).
Proof. reflexivity. Qed.

Lemma ToString_raises_TypeError (v : value) :
  forall e, ToString v = Throw e -> e = TypeError.
Proof.
  induction v as [ | | b | n | s | items IH | members] using value_ind_deep;
    try discriminate.
  - induction IH as [|x xs Hx _ IHxs]; [discriminate|].
    assert (Hpiece : forall e', joinPiece x = Throw e' -> e' = TypeError).
    { intros e'. destruct x; try discriminate; apply Hx. }
    destruct xs as [|y ys]; [exact Hpiece|].
    intros e. rewrite ToString_array_more.
    destruct (joinPiece x) as [sx|ex]; cbn [mbind result_bind].
    + destruct (ToString (VArray (y :: ys))) as [r|er];
        cbn [mbind result_bind]; [discriminate|].
      intros [= <-]. now apply IHxs.
    + intros [= <-]. now apply Hpiece.
  - intros e. cbn [ToString].
    destruct (own_prop _ members); [now intros [= <-] | discriminate].
Qed.

Lemma ToNumber_raises_TypeError (v : value) (e : error) :
  ToNumber v = Throw e -> e = TypeError.
Proof.
  destruct v; try discriminate; unfold ToNumber;
    match goal with
    | |- context [ToString ?x] =>
        destruct (ToString x) as [s|e'] eqn:Hs; cbn [mbind result_bind];
        [discriminate | intros [= <-]; now apply (ToString_raises_TypeError x)]
    end.
Qed.

Lemma lastElement_raises (data : value) (e : error) :
  lastElement data = Throw e ->
  e = TypeError /\ exists members, data = VObject members.
Proof.
  destruct data as [ | | b | n | s | items | members]; try discriminate.
  unfold lastElement.
  destruct (ToNumber _) as [k|e'] eqn:Hk; cbn [mbind result_bind];
    [discriminate|].
  intros [= <-]. split; [|eauto]. now apply ToNumber_raises_TypeError in Hk.
Qed.

Lemma nextToken_raises (data : value) (ep : Endpoint) (e : error) :
  nextToken data ep = Throw e ->
  e = TypeError /\ ep = entities /\ exists members, data = VObject members.
Proof.
  destruct ep; [|discriminate]. unfold nextToken.
  destruct (lastElement data) as [last|e'] eqn:Hl; cbn [mbind result_bind].
  - destruct (isArray last); [|discriminate].
    cbn [mbind result_bind]. discriminate.
  - intros [= <-]. apply lastElement_raises in Hl as [-> Hm]. eauto.
Qed.

(** X3: a [TypeError] from [parseBatch] has one origin: the flavor is
    [entities] and the payload is a JSON object at top level whose member
    [length] cannot be converted to a number.  In both variants. *)
Theorem parseBatch_TypeError_origin (raw : jsstring) (ep : Endpoint) :
  Unconditional.parseBatch raw ep = Throw TypeError
  \/ CheckThenInsert.parseBatch raw ep = Throw TypeError ->
  ep = entities
  /\ exists members,
      JSON_parse (cleaned raw) = Some (VObject members)
      /\ ToNumber (getProp (VObject members) (lit "length"))
         = Throw TypeError.
Proof.
  unfold Unconditional.parseBatch, CheckThenInsert.parseBatch.
  destruct (JSON_parse (cleaned raw)) as [data|];
    [|intros [H|H]; discriminate].
  destruct (nextToken data ep) as [tok|e'] eqn:Ht; cbn [mbind result_bind];
    [intros [H|H]; discriminate|].
  intros He. assert (e' = TypeError) as -> by (destruct He; congruence).
  clear He.
  pose proof (nextToken_raises _ _ _ Ht) as (_ & -> & members & ->).
  split; [reflexivity|]. exists members. split; [reflexivity|].
  revert Ht. unfold nextToken, lastElement.
  destruct (ToNumber (getProp (VObject members) (lit "length")))
    as [len|e] eqn:Hlen; cbn [mbind result_bind].
  - destruct (isArray _); cbn [mbind result_bind]; discriminate.
  - now intros [= ->].
Qed.

Lemma parseBatch_TypeError_origin_witness :
  entities = entities
  /\ exists members,
      JSON_parse (cleaned lengthPayload) = Some (VObject members)
      /\ ToNumber (getProp (VObject members) (lit "length"))
         = Throw TypeError.
Proof.
  apply (parseBatch_TypeError_origin lengthPayload entities).
  left. vm_compute. reflexivity.
Defined.

(** ** The two walkers *)

Lemma leaves_cons (x : value) (l : list value) :
  leaves (VArray (x :: l)) = leaves x ++ leaves (VArray l).
Proof. reflexivity. Qed.

Lemma string_leaves_cons (x : value) (l : list value) :
  string_leaves (VArray (x :: l))
  = string_leaves x ++ string_leaves (VArray l).
Proof. unfold string_leaves. now rewrite leaves_cons, omap_app. Qed.

Lemma getIdx_array_0 (l : list value) :
  getIdx (VArray l) 0 = default VUndefined (head l).
Proof. now destruct l. Qed.

(** X4: [walkDeep] without a callback for numbers (the default [() => {}]) does
    what the [walk] of the first variant does, whatever the callback for
    strings and the value walked. *)
Theorem walkDeep_default_is_walk {S : Type} (fn : jsstring -> S -> S)
        (v : value) (st : S) :
  Unconditional.walkDeep fn (fun _ st => st) v st
  = CheckThenInsert.walk fn v st.
Proof.
  rewrite walkDeep_leaves, walk_leaves. unfold string_leaves.
  revert st. induction (leaves v) as [|[s|n] ls IH]; intros st; simpl;
    [reflexivity | apply IH | apply IH].
Qed.

(** ** Author and text in the first variant *)

Lemma first_match_of_prefix (P : jsstring -> Prop)
      `{!forall s, Decision (P s)} (l1 l2 : list jsstring) :
  default [] (head (filter P l1)) <> [] ->
  default [] (head (filter P (l1 ++ l2))) = default [] (head (filter P l1)).
Proof.
  rewrite filter_app. destruct (filter P l1); [|reflexivity].
  intros Hne. now destruct Hne.
Qed.

(** X5: in the first variant the text of a record is found with the same scan
    as the author, over the whole block instead of its first element: when
    the author is not empty, the review text is the author. *)
Theorem fixed_text_is_author (b : value) (r : CheckThenInsert.Review) :
  CheckThenInsert.parseBlock b = Some r ->
  CheckThenInsert.author r <> [] ->
  CheckThenInsert.review_text r = CheckThenInsert.author r.
Proof.
  unfold CheckThenInsert.parseBlock.
  destruct (negb (isArray b)) eqn:Harr; [discriminate|].
  destruct (negb (truthy _)); [discriminate|]. intros [= <-].
  cbn [CheckThenInsert.author CheckThenInsert.review_text].
  rewrite !walk_leaves, !firstText_fold.
  destruct b as [ | | ? | ? | ? | items | ?]; try discriminate.
  rewrite getIdx_array_0.
  destruct items as [|x items].
  - intros H. now destruct H.
  - change (default VUndefined (head (x :: items))) with x.
    rewrite string_leaves_cons. apply first_match_of_prefix.
Qed.

Lemma fixed_text_is_author_witness :
  exists r,
    CheckThenInsert.parseBlock datedBlock = Some r
    /\ CheckThenInsert.author r = lit "rid"
    /\ CheckThenInsert.review_text r = lit "rid".
Proof.
  destruct (CheckThenInsert.parseBlock datedBlock) as [r|] eqn:Hr;
    [|vm_compute in Hr; discriminate].
  assert (Ha : CheckThenInsert.author r = lit "rid").
  { vm_compute in Hr. now injection Hr as <-. }
  exists r. split; [reflexivity|]. split; [exact Ha|].
  rewrite (fixed_text_is_author _ _ Hr); [exact Ha|].
  rewrite Ha. vm_compute. discriminate.
Defined.

(** ** White space and the prefix *)

Lemma trimStart_app_ws (w x : jsstring) :
  Forall (fun c => isWhiteSpace c = true) w ->
  trimStart (w ++ x) = trimStart x.
Proof. induction 1 as [|c w Hc _ IH]; simpl; [reflexivity | now rewrite Hc]. Qed.

Lemma trimStart_snoc (l : jsstring) (c : N) :
  isWhiteSpace c = false -> trimStart (l ++ [c]) = trimStart l ++ [c].
Proof.
  intros Hc. induction l as [|d l IH]; simpl.
  - now rewrite Hc.
  - now destruct (isWhiteSpace d).
Qed.

Lemma trimStart_cases (s : jsstring) :
  (trimStart s = [] /\ Forall (fun c => isWhiteSpace c = true) s)
  \/ (exists w c t,
         s = w ++ c :: t /\ Forall (fun c => isWhiteSpace c = true) w
         /\ isWhiteSpace c = false /\ trimStart s = c :: t).
Proof.
  induction s as [|d s IH]; simpl.
  - left. split; [reflexivity | constructor].
  - destruct (isWhiteSpace d) eqn:Hd.
    + destruct IH as [[H1 H2]|(w & c & t & -> & Hw & Hc & Ht)].
      * left. split; [assumption | now constructor].
      * right. exists (d :: w), c, t. repeat split; try assumption.
        now constructor.
    + right. exists [], d, s. repeat split; [constructor | assumption].
Qed.

Lemma trim_cons_nonws (c : N) (s : jsstring) :
  isWhiteSpace c = false -> trim (c :: s) = c :: rev (trimStart (rev s)).
Proof.
  intros Hc. unfold trim. simpl. rewrite Hc. simpl.
  rewrite trimStart_snoc by assumption.
  now rewrite rev_app_distr.
Qed.

(** White space around a text does not change what [trim] returns. *)
Lemma trim_pad (w1 s w2 : jsstring) :
  Forall (fun c => isWhiteSpace c = true) w1 ->
  Forall (fun c => isWhiteSpace c = true) w2 ->
  trim (w1 ++ s ++ w2) = trim s.
Proof.
  intros H1 H2. unfold trim. rewrite (trimStart_app_ws _ _ H1).
  destruct (trimStart_cases s) as [[Hs Hall]|(w & c & t & -> & Hw & Hc & Ht)].
  - rewrite Hs.
    replace (trimStart (s ++ w2)) with (@nil N); [reflexivity|].
    symmetry. rewrite (trimStart_app_ws _ _ Hall).
    rewrite <- (app_nil_r w2). now rewrite (trimStart_app_ws _ _ H2).
  - rewrite Ht, <- app_assoc, (trimStart_app_ws _ _ Hw). simpl. rewrite Hc.
    change (c :: t ++ w2) with ((c :: t) ++ w2).
    rewrite rev_app_distr. f_equal.
    apply trimStart_app_ws. apply Forall_forall. intros x Hx.
    apply list_elem_of_In, in_rev, list_elem_of_In in Hx.
    rewrite Forall_forall in H2. now apply H2.
Qed.

Lemma JSON_parse_paren (t : jsstring) : JSON_parse (41%N :: t) = None.
Proof. reflexivity. Qed.

Lemma cleaned_paren (s : jsstring) :
  JSON_parse (trim (XSSI ++ s)) = None.
Proof.
  change (XSSI ++ s) with (41%N :: ([93; 125; 39]%N ++ s)).
  rewrite trim_cons_nonws by reflexivity. apply JSON_parse_paren.
Qed.

(** X6: the prefix is removed once, and only at the very start of the input: a
    payload with the prefix twice, or with white space before the prefix,
    is not JSON after cleaning and gives the empty result; in both
    variants. *)
Theorem prefix_stripped_once :
  (forall raw ep,
      Unconditional.parseBatch (XSSI ++ XSSI ++ raw) ep = Ok noReviews
      /\ CheckThenInsert.parseBatch (XSSI ++ XSSI ++ raw) ep
         = Ok noReviewsFixed)
  /\ (forall w raw ep,
         isWhiteSpace w = true ->
         Unconditional.parseBatch (w :: XSSI ++ raw) ep = Ok noReviews
         /\ CheckThenInsert.parseBatch (w :: XSSI ++ raw) ep
            = Ok noReviewsFixed).
Proof.
  split.
  - intros raw ep.
    unfold Unconditional.parseBatch, CheckThenInsert.parseBatch, cleaned.
    now rewrite strip_XSSI_prefixed, cleaned_paren.
  - intros w raw ep Hw.
    assert (Hc : cleaned (w :: XSSI ++ raw) = trim (XSSI ++ raw)).
    { unfold cleaned, strip_XSSI.
      assert (Hs : startsWith XSSI (w :: XSSI ++ raw) = false).
      { simpl. apply andb_false_r. }
      rewrite Hs. unfold trim. simpl. now rewrite Hw. }
    unfold Unconditional.parseBatch, CheckThenInsert.parseBatch.
    now rewrite Hc, cleaned_paren.
Qed.

Lemma prefix_stripped_once_witness :
  isWhiteSpace 32 = true
  /\ Unconditional.parseBatch (32%N :: XSSI ++ imagesPayload) ugc
     = Ok noReviews
  /\ CheckThenInsert.parseBatch (32%N :: XSSI ++ imagesPayload) ugc
     = Ok noReviewsFixed.
Proof.
  split; [reflexivity|].
  apply (proj2 prefix_stripped_once 32%N imagesPayload ugc). reflexivity.
Defined.

(** X7: after the prefix, white space before and after the JSON text is
    ignored: a prefixed and padded payload is parsed as the bare one. *)
Theorem padding_ignored (raw w1 w2 : jsstring) (ep : Endpoint) :
  startsWith XSSI raw = false ->
  Forall (fun c => isWhiteSpace c = true) w1 ->
  Forall (fun c => isWhiteSpace c = true) w2 ->
  Unconditional.parseBatch (XSSI ++ w1 ++ raw ++ w2) ep
  = Unconditional.parseBatch raw ep
  /\ CheckThenInsert.parseBatch (XSSI ++ w1 ++ raw ++ w2) ep
     = CheckThenInsert.parseBatch raw ep.
Proof.
  intros Hraw H1 H2.
  assert (Hc : cleaned (XSSI ++ w1 ++ raw ++ w2) = cleaned raw).
  { unfold cleaned.
    rewrite strip_XSSI_prefixed, (strip_XSSI_plain _ Hraw).
    now apply trim_pad. }
  unfold Unconditional.parseBatch, CheckThenInsert.parseBatch.
  now rewrite Hc.
Qed.

Lemma padding_ignored_witness :
  Unconditional.parseBatch
    (XSSI ++ [10; 32]%N ++ imagesPayload ++ [13; 10]%N) ugc
  = Unconditional.parseBatch imagesPayload ugc
  /\ CheckThenInsert.parseBatch
       (XSSI ++ [10; 32]%N ++ imagesPayload ++ [13; 10]%N) ugc
     = CheckThenInsert.parseBatch imagesPayload ugc.
Proof.
  apply (padding_ignored imagesPayload [10; 32]%N [13; 10]%N ugc).
  - vm_compute. reflexivity.
  - repeat constructor.
  - repeat constructor.
Defined.

(* ================================================================== *)
(** * 17. Further properties of the extractors *)
(* ================================================================== *)

Lemma trimStart_idem (s : jsstring) : trimStart (trimStart s) = trimStart s.
Proof.
  destruct (trimStart_cases s) as [[-> _]|(w & c & t & _ & _ & Hc & ->)];
    [reflexivity|].
  simpl. now rewrite Hc.
Qed.

Lemma trim_idem (s : jsstring) : trim (trim s) = trim s.
Proof.
  assert (Hnon : forall c t, isWhiteSpace c = false ->
                             trim (trim (c :: t)) = trim (c :: t)).
  { intros c t Hc. rewrite (trim_cons_nonws _ _ Hc).
    rewrite (trim_cons_nonws _ _ Hc). f_equal.
    now rewrite rev_involutive, trimStart_idem. }
  destruct (trimStart_cases s) as [[Hs _]|(w & c & t & -> & Hw & Hc & Ht)].
  - assert (He : trim s = []) by (unfold trim; now rewrite Hs).
    rewrite He. reflexivity.
  - assert (Heq : trim (w ++ c :: t) = trim (c :: t)).
    { rewrite <- (app_nil_r (c :: t)) at 1. now apply trim_pad. }
    rewrite Heq. now apply Hnon.
Qed.

Lemma string_leaves_elem (items : list value) (x : value) (s : jsstring) :
  x ∈ items -> s ∈ string_leaves x -> s ∈ string_leaves (VArray items).
Proof.
  induction items as [|y items IH]; intros Hx Hs.
  - now apply elem_of_nil in Hx.
  - rewrite string_leaves_cons, elem_of_app.
    apply elem_of_cons in Hx as [->|Hx]; [now left | right; now apply IH].
Qed.

Lemma wrappedText_leaf (next : value) (s : jsstring) :
  Unconditional.wrappedText next = Some s -> s ∈ string_leaves next.
Proof.
  unfold Unconditional.wrappedText.
  destruct next as [ | | ? | ? | ? | l | ?]; try discriminate.
  rewrite getIdx_array_0. destruct l as [|x l]; [discriminate|]. simpl.
  destruct x as [ | | ? | ? | ? | l2 | ?]; try discriminate.
  rewrite getIdx_array_0. destruct l2 as [|y l2]; [discriminate|]. simpl.
  destruct y; try discriminate. intros [= <-].
  rewrite !string_leaves_cons. apply elem_of_app. left.
  apply elem_of_app. left. now left.
Qed.

Lemma patternA_leaf (items : list value) (t : jsstring) :
  Unconditional.patternA items = Some t ->
  exists s, s ∈ string_leaves (VArray items) /\ t = trim s.
Proof.
  induction items as [|lang rest IH]; [discriminate|].
  assert (Hrest : Unconditional.patternA rest = Some t ->
                  exists s, s ∈ string_leaves (VArray (lang :: rest))
                            /\ t = trim s).
  { intros H. destruct (IH H) as (s & Hs & ->). exists s. split; [|reflexivity].
    rewrite string_leaves_cons. apply elem_of_app. now right. }
  simpl. destruct rest as [|next rest']; [discriminate|].
  destruct (Unconditional.isLang lang); [|exact Hrest].
  destruct (Unconditional.wrappedText next) as [s|] eqn:Hw; [|exact Hrest].
  intros [= <-]. exists s. split; [|reflexivity].
  apply (string_leaves_elem _ next); [right; now left|].
  now apply wrappedText_leaf.
Qed.

Lemma patternB_leaf (items : list value) (t : jsstring) :
  Unconditional.patternB items = Some t ->
  exists s, s ∈ string_leaves (VArray items) /\ t = trim s.
Proof.
  unfold Unconditional.patternB.
  destruct (rev items) as [|last [|pen l]] eqn:Hrev; try discriminate.
  destruct pen as [ | | ? | ? | ? | [|x [|? ?]] | ?]; try discriminate.
  destruct (Unconditional.isLang x); [|discriminate].
  destruct (Unconditional.wrappedText last) as [s|] eqn:Hw; [|discriminate].
  intros [= <-]. exists s. split; [|reflexivity].
  apply (string_leaves_elem _ last); [|now apply wrappedText_leaf].
  apply list_elem_of_In, in_rev. rewrite Hrev. now left.
Qed.

Lemma recurse_array (items : list value) :
  Unconditional.recurse (VArray items)
  = match Unconditional.patternA items with
    | Some s => Some s
    | None =>
        match Unconditional.patternB items with
        | Some s => Some s
        | None => diveInto items
        end
    end.
Proof. reflexivity. Qed.

Lemma recurse_leaf (v : value) :
  forall t, Unconditional.recurse v = Some t ->
            exists s, s ∈ string_leaves v /\ t = trim s.
Proof.
  induction v as [ | | b | n | s | items IH | members] using value_ind_deep;
    try discriminate.
  intros t. rewrite recurse_array.
  destruct (Unconditional.patternA items) as [a|] eqn:Ha.
  { intros [= <-]. now apply patternA_leaf. }
  destruct (Unconditional.patternB items) as [a|] eqn:Hb.
  { intros [= <-]. now apply patternB_leaf. }
  clear Ha Hb. induction IH as [|x xs Hx _ IHxs]; [discriminate|].
  simpl. destruct (Unconditional.recurse x) as [hit|] eqn:Hhit.
  - intros [= <-]. destruct (Hx _ eq_refl) as (s & Hs & ->).
    exists s. split; [|reflexivity].
    rewrite string_leaves_cons. apply elem_of_app. now left.
  - intros H. destruct (IHxs H) as (s & Hs & ->).
    exists s. split; [|reflexivity].
    rewrite string_leaves_cons. apply elem_of_app. now right.
Qed.

(** X8: the review text is never made up: it is empty, or a string leaf of the
    block with the white space at its ends removed; and it has no white
    space at its ends. *)
Theorem extractReviewText_trimmed_leaf (block : value) :
  (Unconditional.extractReviewText block = []
   \/ exists s, s ∈ string_leaves block
                /\ Unconditional.extractReviewText block = trim s)
  /\ trim (Unconditional.extractReviewText block)
     = Unconditional.extractReviewText block.
Proof.
  unfold Unconditional.extractReviewText.
  destruct (Unconditional.recurse block) as [t|] eqn:Ht; simpl.
  - destruct (recurse_leaf _ _ Ht) as (s & Hs & ->).
    split; [right; eauto | apply trim_idem].
  - split; [now left | reflexivity].
Qed.

Lemma isLang_leaf (items : list value) (x : value) :
  x ∈ items -> Unconditional.isLang x = true ->
  exists s, s ∈ string_leaves (VArray items)
            /\ Unconditional.isLang (VString s) = true.
Proof.
  intros Hx Hl. destruct x as [ | | ? | ? | s | ? | ?]; try discriminate.
  exists s. split; [|exact Hl].
  apply (string_leaves_elem _ (VString s)); [exact Hx | now left].
Qed.

Lemma recurse_needs_tag (v : value) :
  Forall (fun s => Unconditional.isLang (VString s) = false) (string_leaves v) ->
  Unconditional.recurse v = None.
Proof.
  induction v as [ | | b | n | s | items IH | members] using value_ind_deep;
    try reflexivity.
  intros Hno. rewrite Forall_forall in Hno.
  assert (Hlang : forall x, x ∈ items -> Unconditional.isLang x = false).
  { intros x Hx. destruct (Unconditional.isLang x) eqn:Hl; [|reflexivity].
    destruct (isLang_leaf _ _ Hx Hl) as (s & Hs & Hs').
    rewrite (Hno _ Hs) in Hs'. discriminate. }
  rewrite recurse_array.
  assert (Ha : Unconditional.patternA items = None).
  { clear IH Hno. induction items as [|lang rest IHr]; [reflexivity|].
    simpl. destruct rest as [|next rest']; [reflexivity|].
    rewrite (Hlang lang) by now left.
    apply IHr. intros x Hx. apply Hlang. now right. }
  assert (Hb : Unconditional.patternB items = None).
  { unfold Unconditional.patternB.
    destruct (rev items) as [|last [|pen l]] eqn:Hrev; try reflexivity.
    destruct pen as [ | | ? | ? | ? | [|x [|? ?]] | ?]; try reflexivity.
    destruct (Unconditional.isLang x) eqn:Hl; [|reflexivity].
    assert (Hpen : VArray [x] ∈ items).
    { apply list_elem_of_In, in_rev. rewrite Hrev. right. now left. }
    destruct x as [ | | ? | ? | s | ? | ?]; try discriminate.
    assert (Hs : s ∈ string_leaves (VArray items)).
    { apply (string_leaves_elem _ (VArray [VString s])); [exact Hpen|].
      now left. }
    rewrite (Hno _ Hs) in Hl. discriminate. }
  rewrite Ha, Hb.
  assert (Hsub : forall x s, x ∈ items -> s ∈ string_leaves x ->
                             Unconditional.isLang (VString s) = false).
  { intros x s Hx Hs. apply Hno. now apply (string_leaves_elem _ x). }
  clear Ha Hb Hlang Hno.
  induction IH as [|x xs Hx _ IHxs]; [reflexivity|].
  simpl. rewrite Hx.
  - apply IHxs. intros y s Hy. apply Hsub. now right.
  - apply Forall_forall. intros s Hs. apply (Hsub x); [now left | exact Hs].
Qed.

(** X9: no text is found in a block without a language tag: when no string leaf
    of the block consists of exactly two letters, the review text is
    empty. *)
Theorem extractReviewText_needs_tag (block : value) :
  Forall (fun s => Unconditional.isLang (VString s) = false)
         (string_leaves block) ->
  Unconditional.extractReviewText block = [].
Proof.
  intros H. unfold Unconditional.extractReviewText.
  now rewrite recurse_needs_tag.
Qed.

Lemma extractReviewText_needs_tag_witness :
  Unconditional.extractReviewText untaggedBlock = [].
Proof.
  apply (extractReviewText_needs_tag untaggedBlock).
  repeat constructor.
Defined.

(** ** Where an identifier comes from *)

Lemma findReply_origin (all : list jsstring) (ls : list leaf)
      (st : option jsstring) :
  (forall s, s ∈ omap leaf_string ls -> s ∈ all) ->
  (forall p, st = Some p ->
             exists s, s ∈ all /\ includes Unconditional.replyMarker s = true
                       /\ split_at_1 (lit "p=") s = Some p) ->
  forall p,
    fold_left (visit Unconditional.findReply (fun _ st => st)) ls st = Some p ->
    exists s, s ∈ all /\ includes Unconditional.replyMarker s = true
              /\ split_at_1 (lit "p=") s = Some p.
Proof.
  revert st. induction ls as [|[s|n] ls IH]; intros st Hsub Hst p; simpl.
  - apply Hst.
  - apply IH.
    + intros s' Hs'. apply Hsub. simpl. now right.
    + intros q. unfold Unconditional.findReply.
      destruct (_ && includes Unconditional.replyMarker s) eqn:Hc;
        [|apply Hst].
      apply andb_true_iff in Hc as [_ Hc].
      intros Hq. exists s. repeat split; [|assumption..].
      apply Hsub. simpl. now left.
  - apply IH; assumption.
Qed.

(** X10: the identifier of a block is never made up: it is empty, or the string
    at [block[0][0]], or the text that follows the first [p=] (up to the
    next one) in a string leaf of the block that holds the reply-link
    marker.  And the fallback is only consulted for an echo: a string at
    [block[0][0]] that differs from the page token is returned as it is,
    whatever else the block holds. *)
Theorem extractReviewId_origin (block pageToken : value) :
  (Unconditional.extractReviewId block pageToken = []
   \/ getIdx (getIdx block 0) 0
      = VString (Unconditional.extractReviewId block pageToken)
   \/ exists s,
       s ∈ string_leaves block
       /\ includes Unconditional.replyMarker s = true
       /\ split_at_1 (lit "p=") s
          = Some (Unconditional.extractReviewId block pageToken))
  /\ (forall c,
         getIdx (getIdx block 0) 0 = VString c ->
         Unconditional.differs c pageToken = true ->
         Unconditional.extractReviewId block pageToken = c).
Proof.
  split.
  - unfold Unconditional.extractReviewId.
    set (candidate := getIdx (getIdx block 0) 0).
    assert (Hfall :
              match Unconditional.walkDeep Unconditional.findReply
                      (fun _ st => st) block None with
              | Some p => p
              | None => match candidate with VString c => c | _ => [] end
              end = []
              \/ candidate
                 = VString
                     match Unconditional.walkDeep Unconditional.findReply
                             (fun _ st => st) block None with
                     | Some p => p
                     | None => match candidate with VString c => c | _ => [] end
                     end
              \/ exists s,
                  s ∈ string_leaves block
                  /\ includes Unconditional.replyMarker s = true
                  /\ split_at_1 (lit "p=") s
                     = Some
                         match Unconditional.walkDeep Unconditional.findReply
                                 (fun _ st => st) block None with
                         | Some p => p
                         | None =>
                             match candidate with VString c => c | _ => [] end
                         end).
    { rewrite walkDeep_leaves.
      destruct (fold_left _ (leaves block) None) as [p|] eqn:Hp.
      - right. right.
        apply (findReply_origin (string_leaves block) (leaves block) None);
          [auto | discriminate | exact Hp].
      - destruct candidate; auto. }
    destruct candidate as [ | | ? | ? | c | ? | ?]; try exact Hfall.
    destruct (Unconditional.differs c pageToken); [|exact Hfall].
    right. now left.
  - intros c Hc Hd. unfold Unconditional.extractReviewId.
    now rewrite Hc, Hd.
Qed.

Lemma extractReviewId_origin_witness :
  Unconditional.extractReviewId replyBlock (VNumber (num_of_Z 7)) = lit "tok"
  /\ Unconditional.extractReviewId replyBlock (VString (lit "tok"))
     = lit "ID77".
Proof.
  split.
  - apply (proj2 (extractReviewId_origin replyBlock (VNumber (num_of_Z 7)))).
    + vm_compute. reflexivity.
    + reflexivity.
  - vm_compute. reflexivity.
Defined.

(* ================================================================== *)
(** * 18. Further properties of the token codec *)
(* ================================================================== *)

Lemma includes_unfold (p s : jsstring) :
  includes p s
  = (startsWith p s || match s with [] => false | _ :: s' => includes p s' end).
Proof. destruct s; reflexivity. Qed.

(** The pattern matches exactly when the tag occurs in the URL. *)
Lemma match_marker_None (tag url : jsstring) :
  Codec.match_marker tag url = None <-> includes tag url = false.
Proof.
  induction url as [|c url IH]; rewrite match_marker_unfold, includes_unfold.
  - destruct (startsWith tag []); simpl.
    + destruct (span _ _). split; discriminate.
    + split; reflexivity.
  - destruct (startsWith tag (c :: url)); simpl.
    + destruct (span _ _). split; discriminate.
    + rewrite <- IH.
      destruct (Codec.match_marker tag url) as [[[pre run] post]|]; simpl;
        split; (discriminate || reflexivity).
Qed.

Lemma unreserved_small (c : N) : Codec.unreserved c = true -> (c < 127)%N.
Proof.
  unfold Codec.unreserved, isAlpha, isDigit.
  rewrite !orb_true_iff, !andb_true_iff, !N.leb_le, !N.eqb_eq. lia.
Qed.

Lemma unreserved_not_surrogate (c : N) :
  Codec.unreserved c = true -> Codec.isLead c = false /\ Codec.isTrail c = false.
Proof.
  intros H%unreserved_small. unfold Codec.isLead, Codec.isTrail.
  split; apply andb_false_iff; left; apply N.leb_gt; lia.
Qed.

Lemma lead_not_trail (c : N) : Codec.isLead c = true -> Codec.isTrail c = false.
Proof.
  unfold Codec.isLead, Codec.isTrail.
  rewrite andb_true_iff, !N.leb_le. intros [_ H].
  apply andb_false_iff. left. apply N.leb_gt. lia.
Qed.

Lemma wellFormed_cons (c : N) (s' : jsstring) :
  wellFormed (c :: s')
  = if Codec.isLead c
    then match s' with
         | d :: s'' => Codec.isTrail d && wellFormed s''
         | [] => false
         end
    else negb (Codec.isTrail c) && wellFormed s'.
Proof. reflexivity. Qed.

(** [encodeURIComponent] returns for the well-formed strings and raises a
    [URIError] for the others. *)
Lemma encodeURIComponent_wellFormed_aux (s : jsstring) :
  (if wellFormed s then exists e, Codec.encodeURIComponent s = Ok e
   else Codec.encodeURIComponent s = Throw URIError)
  /\ (forall c,
         if wellFormed (c :: s)
         then exists e, Codec.encodeURIComponent (c :: s) = Ok e
         else Codec.encodeURIComponent (c :: s) = Throw URIError).
Proof.
  induction s as [|d s [IH1 IH2]].
  - split; [simpl; eauto|].
    intros c. rewrite wellFormed_cons, encodeURIComponent_cons.
    destruct (Codec.unreserved c) eqn:Hu.
    + destruct (unreserved_not_surrogate _ Hu) as [-> ->]. simpl. eauto.
    + destruct (Codec.isLead c); [reflexivity|].
      destruct (Codec.isTrail c); simpl; eauto.
  - split; [apply IH2|].
    intros c. rewrite wellFormed_cons, encodeURIComponent_cons.
    specialize (IH2 d).
    destruct (Codec.unreserved c) eqn:Hu.
    + destruct (unreserved_not_surrogate _ Hu) as [-> ->].
      cbn [negb andb].
      destruct (wellFormed (d :: s)).
      * destruct IH2 as [e ->]. cbn [mbind result_bind]. eauto.
      * rewrite IH2. reflexivity.
    + destruct (Codec.isLead c).
      * destruct (Codec.isTrail d); [|reflexivity]. cbn [andb].
        destruct (wellFormed s).
        -- destruct IH1 as [e ->]. cbn [mbind result_bind]. eauto.
        -- rewrite IH1. reflexivity.
      * destruct (Codec.isTrail c); [reflexivity|]. cbn [negb andb].
        destruct (wellFormed (d :: s)).
        -- destruct IH2 as [e ->]. cbn [mbind result_bind]. eauto.
        -- rewrite IH2. reflexivity.
Qed.

Lemma encodeURIComponent_Ok (t : jsstring) :
  wellFormed t = true -> exists e, Codec.encodeURIComponent t = Ok e.
Proof.
  intros H. pose proof (proj1 (encodeURIComponent_wellFormed_aux t)) as Ht.
  now rewrite H in Ht.
Qed.

Lemma encodeURIComponent_Throw (t : jsstring) :
  wellFormed t = false -> Codec.encodeURIComponent t = Throw URIError.
Proof.
  intros H. pose proof (proj1 (encodeURIComponent_wellFormed_aux t)) as Ht.
  now rewrite H in Ht.
Qed.

Lemma replace_marker_Throw (tag url t : jsstring) (e : error) :
  Codec.replace_marker tag url t = Throw e
  <-> e = URIError /\ includes tag url = true /\ wellFormed t = false.
Proof.
  unfold Codec.replace_marker.
  destruct (Codec.match_marker tag url) as [[[pre run] post]|] eqn:Hm.
  - assert (Hinc : includes tag url = true).
    { destruct (includes tag url) eqn:Hi; [reflexivity|].
      apply match_marker_None in Hi. congruence. }
    destruct (wellFormed t) eqn:Hw.
    + destruct (encodeURIComponent_Ok _ Hw) as [e' ->].
      cbn [mbind result_bind]. split; [discriminate|].
      intros (_ & _ & H). discriminate.
    + rewrite (encodeURIComponent_Throw _ Hw). cbn [mbind result_bind].
      split; [now intros [= <-] | now intros (-> & _ & _)].
  - apply match_marker_None in Hm. split; [discriminate|].
    intros (_ & H & _). congruence.
Qed.

(** X11: the rewrite as the driver calls it, with the token as the parser
    left it.  A URL in which the marker of the endpoint does not occur is
    returned unchanged for every token, also one that cannot be converted
    or escaped: the callback of [replace] is not run.  The rewrite raises
    exactly when the marker occurs and either the token cannot be converted
    to a string, which is a [TypeError], or its string has a lone
    surrogate, which is a [URIError]. *)
Theorem nextUrl_unchanged_or_raises (ep : Endpoint) (baseUrl : jsstring)
        (token : value) :
  (includes (UnconditionalRun.tagOf ep) baseUrl = false ->
   UnconditionalRun.nextUrl ep baseUrl token = Ok baseUrl)
  /\ forall e,
       UnconditionalRun.nextUrl ep baseUrl token = Throw e
       <-> includes (UnconditionalRun.tagOf ep) baseUrl = true
           /\ ((e = TypeError /\ ToString token = Throw TypeError)
               \/ (e = URIError
                   /\ exists t, ToString token = Ok t
                                /\ wellFormed t = false)).
Proof.
  unfold UnconditionalRun.nextUrl. split.
  - intros H. apply match_marker_None in H. now rewrite H.
  - intros e.
    destruct (Codec.match_marker (UnconditionalRun.tagOf ep) baseUrl)
      as [[[pre run] post]|] eqn:Hm.
    + assert (Hinc : includes (UnconditionalRun.tagOf ep) baseUrl = true).
      { destruct (includes _ baseUrl) eqn:Hi; [reflexivity|].
        apply match_marker_None in Hi. congruence. }
      destruct (ToString token) as [t|e'] eqn:Ht; cbn [mbind result_bind].
      * assert (Hrw : match ep with
                      | entities => Codec.withEntitiesToken baseUrl t
                      | ugc => Codec.withUgcToken baseUrl t
                      end
                      = Codec.replace_marker (UnconditionalRun.tagOf ep)
                                             baseUrl t)
          by (now destruct ep).
        rewrite Hrw, replace_marker_Throw. split.
        -- intros (-> & _ & Hw). split; [exact Hinc|]. right. eauto.
        -- intros (_ & [(_ & H) | (-> & t' & [= <-] & Hw)]);
             [discriminate|]. auto.
      * pose proof (ToString_raises_TypeError _ _ Ht) as ->. split.
        -- intros [= <-]. split; [exact Hinc|]. now left.
        -- intros (_ & [(-> & _) | (_ & t & H & _)]);
             [reflexivity | discriminate].
    + apply match_marker_None in Hm. split; [discriminate|].
      intros (H & _). congruence.
Qed.

Lemma nextUrl_unchanged_or_raises_witness :
  UnconditionalRun.nextUrl entities ugcUrl opaqueToken = Ok ugcUrl
  /\ UnconditionalRun.nextUrl ugc ugcUrl opaqueToken = Throw TypeError
  /\ UnconditionalRun.nextUrl entities entitiesUrl (VString brokenToken)
     = Throw URIError.
Proof.
  split; [|split].
  - apply (proj1 (nextUrl_unchanged_or_raises entities ugcUrl opaqueToken)).
    vm_compute. reflexivity.
  - apply (proj2 (nextUrl_unchanged_or_raises ugc ugcUrl opaqueToken)).
    split; [vm_compute; reflexivity|]. left. split; reflexivity.
  - apply (proj2 (nextUrl_unchanged_or_raises
                    entities entitiesUrl (VString brokenToken))).
    split; [vm_compute; reflexivity|]. right. split; [reflexivity|].
    exists brokenToken. split; reflexivity.
Defined.

Lemma no_bang_of_not_elem (t : jsstring) :
  33%N ∉ t -> Forall (fun c => negb (c =? 33)%N = true) t.
Proof.
  intros Ht. apply Forall_forall. intros c Hc.
  apply negb_true_iff, N.eqb_neq. intros ->. contradiction.
Qed.

Lemma replace_marker_readback (tag url t u : jsstring) :
  33%N ∉ t ->
  includes tag url = true ->
  Codec.replace_marker tag url t = Ok u ->
  exists pre run post e,
    Codec.match_marker tag url = Some (pre, run, post)
    /\ Codec.encodeURIComponent t = Ok e
    /\ u = rebuilt tag pre post e
    /\ Codec.match_marker tag u = Some (pre, e, post)
    /\ Codec.replace_marker tag u t = Ok u.
Proof.
  intros Ht Hinc. unfold Codec.replace_marker at 1.
  destruct (Codec.match_marker tag url) as [[[pre run] post]|] eqn:Hm.
  - destruct (Codec.encodeURIComponent t) as [e|] eqn:He;
      cbn [mbind result_bind]; [|discriminate].
    intros [= <-]. fold (rebuilt tag pre post e).
    pose proof (encodeURIComponent_no_bang _ _ He (no_bang_of_not_elem _ Ht))
      as Hno.
    pose proof (match_marker_rebuilt _ _ _ _ _ _ Hm Hno) as Hback.
    exists pre, run, post, e. repeat split; try assumption.
    unfold Codec.replace_marker. rewrite Hback, He. reflexivity.
  - apply match_marker_None in Hm. congruence.
Qed.

(** X12: for a token without [!], the rewritten URL carries the escaped token in
    its marker segment, between the same two parts as before: the pattern
    matches it again at the same place, with the escaped token as its run.
    Rewriting the result with the same token changes nothing.  For both
    flavors. *)
Theorem rewrite_reads_back (url t u : jsstring) :
  33%N ∉ t ->
  (includes (lit "!3s") url = true ->
   Codec.withEntitiesToken url t = Ok u ->
   exists pre run post e,
     Codec.match_marker (lit "!3s") url = Some (pre, run, post)
     /\ Codec.encodeURIComponent t = Ok e
     /\ u = rebuilt (lit "!3s") pre post e
     /\ Codec.match_marker (lit "!3s") u = Some (pre, e, post)
     /\ Codec.withEntitiesToken u t = Ok u)
  /\ (includes (lit "!2s") url = true ->
      Codec.withUgcToken url t = Ok u ->
      exists pre run post e,
        Codec.match_marker (lit "!2s") url = Some (pre, run, post)
        /\ Codec.encodeURIComponent t = Ok e
        /\ u = rebuilt (lit "!2s") pre post e
        /\ Codec.match_marker (lit "!2s") u = Some (pre, e, post)
        /\ Codec.withUgcToken u t = Ok u).
Proof.
  intros Ht. split; intros Hinc Hu; now apply replace_marker_readback.
Qed.

Lemma rewrite_reads_back_witness :
  exists pre run post e,
    Codec.match_marker (lit "!3s") entitiesUrl = Some (pre, run, post)
    /\ Codec.encodeURIComponent (lit "CAES+w==") = Ok e
    /\ lit "https://host/rpc?pb=!1sX!3sCAES%2Bw%3D%3D!4m5"
       = rebuilt (lit "!3s") pre post e
    /\ Codec.match_marker (lit "!3s")
         (lit "https://host/rpc?pb=!1sX!3sCAES%2Bw%3D%3D!4m5")
       = Some (pre, e, post)
    /\ Codec.withEntitiesToken
         (lit "https://host/rpc?pb=!1sX!3sCAES%2Bw%3D%3D!4m5")
         (lit "CAES+w==")
       = Ok (lit "https://host/rpc?pb=!1sX!3sCAES%2Bw%3D%3D!4m5").
Proof.
  apply (proj1 (rewrite_reads_back
                  entitiesUrl (lit "CAES+w==")
                  (lit "https://host/rpc?pb=!1sX!3sCAES%2Bw%3D%3D!4m5")
                  ltac:(intros H; vm_compute in H;
                        repeat (inversion H as [|? ? ? H']; clear H;
                                rename H' into H)))).
  - vm_compute. reflexivity.
  - vm_compute. reflexivity.
Defined.

(** ** What an escaped token is made of *)

Lemma hex_digit_safe (n : N) :
  (n < 16)%N -> urlSafe (Codec.hex_digit n) = true.
Proof.
  intros Hn. unfold urlSafe, Codec.unreserved, isAlpha, isDigit, Codec.hex_digit.
  destruct (n <? 10)%N eqn:H10.
  - apply N.ltb_lt in H10.
    assert (H : ((48 <=? 48 + n) && (48 + n <=? 57))%N = true)
      by (apply andb_true_iff; rewrite !N.leb_le; lia).
    rewrite H. now rewrite orb_true_r.
  - apply N.ltb_ge in H10.
    assert (H : ((65 <=? 55 + n) && (55 + n <=? 90))%N = true)
      by (apply andb_true_iff; rewrite !N.leb_le; lia).
    now rewrite H.
Qed.

Lemma percent_safe (b : N) :
  (b < 256)%N -> Forall (fun c => urlSafe c = true) (Codec.percent b).
Proof.
  intros Hb. unfold Codec.percent. repeat constructor.
  - apply hex_digit_safe. apply N.Div0.div_lt_upper_bound. lia.
  - apply hex_digit_safe. apply N.mod_lt. lia.
Qed.

Lemma escape_safe (cp : N) :
  (cp < 1114112)%N -> Forall (fun c => urlSafe c = true) (Codec.escape cp).
Proof.
  intros Hcp. unfold Codec.escape.
  assert (Hbytes : Forall (fun b => (b < 256)%N) (Codec.utf8 cp)).
  { assert (H64 : forall x, (128 + x mod 64 < 256)%N).
    { intros x. pose proof (N.mod_lt x 64 ltac:(lia)). lia. }
    unfold Codec.utf8.
    destruct (cp <? 128)%N eqn:H1; [apply N.ltb_lt in H1; repeat constructor; lia|].
    destruct (cp <? 2048)%N eqn:H2.
    { apply N.ltb_lt in H2. repeat constructor; [|apply H64].
      assert (cp / 64 < 32)%N by (apply N.Div0.div_lt_upper_bound; lia). lia. }
    destruct (cp <? 65536)%N eqn:H3.
    { apply N.ltb_lt in H3. repeat constructor; [|apply H64..].
      assert (cp / 4096 < 16)%N by (apply N.Div0.div_lt_upper_bound; lia). lia. }
    repeat constructor; [|apply H64..].
    assert (cp / 262144 < 5)%N by (apply N.Div0.div_lt_upper_bound; lia). lia. }
  induction Hbytes as [|b l Hb _ IH]; [constructor|].
  change (concat (map Codec.percent (b :: l)))
    with (Codec.percent b ++ concat (map Codec.percent l)).
  apply Forall_app. split; [now apply percent_safe | exact IH].
Qed.

Lemma encodeURIComponent_safe_aux (s : jsstring) :
  (forall e, Codec.encodeURIComponent s = Ok e ->
             Forall (fun c => (c < 65536)%N) s ->
             Forall (fun c => urlSafe c = true) e)
  /\ (forall c e,
         Codec.encodeURIComponent (c :: s) = Ok e ->
         Forall (fun c => (c < 65536)%N) (c :: s) ->
         Forall (fun c => urlSafe c = true) e).
Proof.
  induction s as [|d s [IH1 IH2]].
  - split.
    + intros e [= <-] _. constructor.
    + intros c e. simpl.
      destruct (Codec.unreserved c) eqn:Hu.
      { intros [= <-] _. repeat constructor. unfold urlSafe. now rewrite Hu. }
      destruct (Codec.isLead c); [discriminate|].
      destruct (Codec.isTrail c); [discriminate|].
      intros [= <-] H. rewrite app_nil_r. apply escape_safe.
      inversion H; subst. lia.
  - split; [apply IH2|].
    intros c e. rewrite encodeURIComponent_cons.
    destruct (Codec.unreserved c) eqn:Hu.
    + destruct (Codec.encodeURIComponent (d :: s)) as [r|] eqn:Hr;
        cbn [mbind result_bind]; [|discriminate].
      intros [= <-] H. inversion H; subst.
      constructor; [unfold urlSafe; now rewrite Hu|]. now apply (IH2 d).
    + destruct (Codec.isLead c) eqn:Hl.
      * destruct (Codec.isTrail d) eqn:Ht; [|discriminate].
        destruct (Codec.encodeURIComponent s) as [r|] eqn:Hr;
          cbn [mbind result_bind]; [|discriminate].
        intros [= <-] H. inversion H as [|? ? _ H']; subst.
        inversion H'; subst.
        apply Forall_app. split; [|now apply IH1].
        apply escape_safe.
        unfold Codec.isLead in Hl. unfold Codec.isTrail in Ht.
        apply andb_true_iff in Hl as [Hl1 Hl2].
        apply andb_true_iff in Ht as [Ht1 Ht2].
        apply N.leb_le in Hl1, Hl2, Ht1, Ht2. lia.
      * destruct (Codec.isTrail c); [discriminate|].
        destruct (Codec.encodeURIComponent (d :: s)) as [r|] eqn:Hr;
          cbn [mbind result_bind]; [|discriminate].
        intros [= <-] H. inversion H; subst.
        apply Forall_app. split; [apply escape_safe; lia | now apply (IH2 d)].
Qed.

Lemma encodeURIComponent_unreserved (t : jsstring) :
  Forall (fun c => Codec.unreserved c = true) t ->
  Codec.encodeURIComponent t = Ok t.
Proof.
  induction 1 as [|c t Hc _ IH]; [reflexivity|].
  destruct t as [|d t].
  - simpl. now rewrite Hc.
  - rewrite encodeURIComponent_cons, Hc, IH. reflexivity.
Qed.

(** X13: what a rewrite puts into the URL: when the marker occurs and the rewrite
    returns, the result is the part before the match, the tag, a segment and
    the part after the match, where the segment holds nothing but unreserved
    characters and percent signs (the token's code units being below 65536,
    as those of every JavaScript string are), and is the token itself when
    the token holds unreserved characters only.  For both flavors. *)
Theorem rewritten_segment_is_url_safe (url t u : jsstring) :
  Forall (fun c => (c < 65536)%N) t ->
  (includes (lit "!3s") url = true ->
   Codec.withEntitiesToken url t = Ok u ->
   exists pre run post e,
     Codec.match_marker (lit "!3s") url = Some (pre, run, post)
     /\ u = rebuilt (lit "!3s") pre post e
     /\ Forall (fun c => urlSafe c = true) e
     /\ (Forall (fun c => Codec.unreserved c = true) t -> e = t))
  /\ (includes (lit "!2s") url = true ->
      Codec.withUgcToken url t = Ok u ->
      exists pre run post e,
        Codec.match_marker (lit "!2s") url = Some (pre, run, post)
        /\ u = rebuilt (lit "!2s") pre post e
        /\ Forall (fun c => urlSafe c = true) e
        /\ (Forall (fun c => Codec.unreserved c = true) t -> e = t)).
Proof.
  intros Ht.
  assert (Hgen : forall tag,
    includes tag url = true ->
    Codec.replace_marker tag url t = Ok u ->
    exists pre run post e,
      Codec.match_marker tag url = Some (pre, run, post)
      /\ u = rebuilt tag pre post e
      /\ Forall (fun c => urlSafe c = true) e
      /\ (Forall (fun c => Codec.unreserved c = true) t -> e = t)).
  { intros tag Hinc. unfold Codec.replace_marker.
    destruct (Codec.match_marker tag url) as [[[pre run] post]|] eqn:Hm.
    - destruct (Codec.encodeURIComponent t) as [e|] eqn:He;
        cbn [mbind result_bind]; [|discriminate].
      intros [= <-]. exists pre, run, post, e.
      split; [reflexivity|]. split; [reflexivity|]. split.
      + exact (proj1 (encodeURIComponent_safe_aux t) e He Ht).
      + intros Hun. apply encodeURIComponent_unreserved in Hun. congruence.
    - apply match_marker_None in Hm. congruence. }
  split; apply Hgen.
Qed.

Lemma rewritten_segment_is_url_safe_witness :
  exists pre run post e,
    Codec.match_marker (lit "!3s") (lit "x!3sOLD!4m") = Some (pre, run, post)
    /\ lit "x!3sa%2Bb!4m" = rebuilt (lit "!3s") pre post e
    /\ Forall (fun c => urlSafe c = true) e
    /\ (Forall (fun c => Codec.unreserved c = true) (lit "a+b")
        -> e = lit "a+b").
Proof.
  refine (proj1 (rewritten_segment_is_url_safe
                   (lit "x!3sOLD!4m") (lit "a+b") (lit "x!3sa%2Bb!4m") _) _ _).
  - apply (bool_decide_eq_true_1 _). vm_compute. reflexivity.
  - vm_compute. reflexivity.
  - vm_compute. reflexivity.
Defined.

(* ================================================================== *)
(** * 19. Further properties of the dedup gateway *)
(* ================================================================== *)

Section GatewayTable.
Import CheckThenInsert.

#[local] Abbreviation ids rows := (row_review_id <$> rows).

Lemma has_reported (existing : list jsstring) (id : value) :
  has existing id = true <-> reported existing id.
Proof.
  unfold has, reported. destruct id as [ | | ? | ? | s | ? | ?];
    try (split; [discriminate | intros (s' & Hs & _); discriminate]).
  rewrite bool_decide_eq_true. split.
  - intros Hs. now exists s.
  - now intros (s' & [= <-] & Hs).
Qed.




(** ** What ends up stored *)

Section Keyed.
Variable key : value -> jsstring.

Lemma insert_do_nothing_cons (r : ReviewRow) (rows : list ReviewRow)
      (tbl : gmap jsstring ReviewRow) :
  insert_do_nothing key tbl (r :: rows)
  = insert_do_nothing key
      match tbl !! key (row_review_id r) with
      | Some _ => tbl
      | None => <[key (row_review_id r) := r]> tbl
      end rows.
Proof. reflexivity. Qed.

(** What the statement leaves under a key: the stored row, or else the
    first row of the statement with that key. *)
Lemma insert_do_nothing_lookup (rows : list ReviewRow)
      (tbl : gmap jsstring ReviewRow) (k : jsstring) :
  insert_do_nothing key tbl rows !! k
  = match tbl !! k with
    | Some r => Some r
    | None => firstWithKey key k rows
    end.
Proof.
  revert tbl. induction rows as [|r rows IH]; intros tbl.
  - simpl. now destruct (tbl !! k).
  - rewrite insert_do_nothing_cons, IH. unfold firstWithKey.
    destruct (decide (key (row_review_id r) = k)) as [Heq|Hne].
    + rewrite filter_cons_True by exact Heq. simpl. subst k.
      destruct (tbl !! key (row_review_id r)) eqn:Hr.
      * now rewrite Hr.
      * now rewrite lookup_insert_eq.
    + rewrite filter_cons_False by exact Hne.
      destruct (tbl !! key (row_review_id r)) eqn:Hr; [reflexivity|].
      now rewrite lookup_insert_ne.
Qed.

(** Rows whose key is taken can be left out of the statement. *)
Lemma insert_do_nothing_filter (P : ReviewRow -> Prop)
      `{!forall r, Decision (P r)} (rows : list ReviewRow)
      (tbl : gmap jsstring ReviewRow) :
  (forall r, r ∈ rows -> ~ P r -> is_Some (tbl !! key (row_review_id r))) ->
  insert_do_nothing key tbl (filter P rows) = insert_do_nothing key tbl rows.
Proof.
  revert tbl. induction rows as [|r rows IH]; intros tbl Hcov; [reflexivity|].
  destruct (decide (P r)) as [Hp|Hn].
  - rewrite filter_cons_True by exact Hp.
    rewrite !insert_do_nothing_cons. apply IH.
    intros r' Hr' Hn'. specialize (Hcov r' ltac:(now right) Hn').
    destruct (tbl !! key (row_review_id r)); [exact Hcov|].
    destruct (decide (key (row_review_id r) = key (row_review_id r')))
      as [<-|Hne].
    + rewrite lookup_insert_eq. eauto.
    + now rewrite lookup_insert_ne.
  - rewrite filter_cons_False by exact Hn.
    rewrite insert_do_nothing_cons.
    destruct (Hcov r ltac:(now left) Hn) as [v ->].
    apply IH. intros r' Hr'. apply Hcov. now right.
Qed.

(** X14: the existence query changes what [insertIfNew] sends, not what
    ends up stored.  When the query returns stored identifiers only and a
    stored text is the key of itself, the table that the statements of a
    returned call leave is the one that the conflict-tolerant insert would
    leave if it carried every submitted row: under each key the row held
    before, or else the first submitted row with that key. *)
Theorem insertIfNew_first_wins (tbl : gmap jsstring ReviewRow)
        (rows : list ReviewRow) (existing : list jsstring)
        (inserted : answer) :
  (forall s, s ∈ existing -> is_Some (tbl !! s)) ->
  (forall s, is_Some (tbl !! s) -> key (VString s) = s) ->
  returned (insertIfNew rows (Rows existing) inserted) = true ->
  tableAfter key tbl (sent (insertIfNew rows (Rows existing) inserted))
  = insert_do_nothing key tbl rows
  /\ forall k,
       tableAfter key tbl (sent (insertIfNew rows (Rows existing) inserted))
       !! k
       = match tbl !! k with
         | Some r => Some r
         | None => firstWithKey key k rows
         end.
Proof.
  intros Hsound Hkey _.
  assert (Htable :
            tableAfter key tbl
                       (sent (insertIfNew rows (Rows existing) inserted))
            = insert_do_nothing key tbl rows).
  { unfold insertIfNew.
    destruct rows as [|r0 rows0] eqn:Erows; [reflexivity|].
    rewrite <- Erows. clear Erows r0 rows0.
    assert (Hall : insert_do_nothing key tbl
                     (filter (fun r => has existing (row_review_id r) = false)
                             rows)
                   = insert_do_nothing key tbl rows).
    { apply insert_do_nothing_filter. intros r Hr Hn.
      apply not_false_iff_true, has_reported in Hn.
      destruct Hn as (s & Hid & Hs). rewrite Hid.
      pose proof (Hsound s Hs) as Hstored.
      now rewrite (Hkey s Hstored). }
    destruct (filter _ rows) eqn:Hfresh; cbn [sent tableAfter fold_left];
      exact Hall. }
  split; [exact Htable|].
  intros k. rewrite Htable. apply insert_do_nothing_lookup.
Qed.

End Keyed.

(** On the sample batch and a table that holds its first identifier. *)
Lemma insertIfNew_first_wins_witness :
  tableAfter sampleKey {[ lit "r1" := sampleRow "r1" ]}
             (sent (insertIfNew sampleBatch (Rows [lit "r1"]) (Rows [])))
  = insert_do_nothing sampleKey {[ lit "r1" := sampleRow "r1" ]} sampleBatch
  /\ forall k,
       tableAfter sampleKey {[ lit "r1" := sampleRow "r1" ]}
                  (sent (insertIfNew sampleBatch (Rows [lit "r1"]) (Rows [])))
       !! k
       = match ({[ lit "r1" := sampleRow "r1" ]}
                  : gmap jsstring ReviewRow) !! k with
         | Some r => Some r
         | None => firstWithKey sampleKey k sampleBatch
         end.
Proof.
  apply (insertIfNew_first_wins sampleKey {[ lit "r1" := sampleRow "r1" ]}
                                sampleBatch [lit "r1"] (Rows [])).
  - intros s Hs. apply list_elem_of_singleton in Hs as ->.
    rewrite lookup_singleton_eq. eauto.
  - intros s _. reflexivity.
  - reflexivity.
Defined.

End GatewayTable.

(* ================================================================== *)
(** * 20. The driver of the second variant *)
(* ================================================================== *)

Section Driver.
Import UnconditionalRun.

Lemma paginate_unfold (src : SourceRow) (ep : Endpoint)
      (baseUrl : jsstring) (token : value) (all : list ReviewRow)
      (requested : list jsstring) (responses : list APIResponse) :
  paginate src ep baseUrl token all requested responses
  = if truthy token then
      match nextUrl ep baseUrl token with
      | Throw e => Raised e requested
      | Ok url =>
          match responses with
          | [] => Waiting all (requested ++ [url])
          | res :: responses' =>
              if negb (status res =? 200)
              then Finished all (requested ++ [url])
              else
                match Unconditional.parseBatch (text res) ep with
                | Throw e => Raised e (requested ++ [url])
                | Ok parsed =>
                    paginate src ep baseUrl (Unconditional.token parsed)
                             (all ++ (toRow src
                                        <$> Unconditional.reviews parsed))
                             (requested ++ [url]) responses'
                end
          end
      end
    else Finished all requested.
Proof. destruct responses; reflexivity. Qed.

Lemma rowsOf_cons (src : SourceRow) (p : Unconditional.ParseResult)
      (pages : list Unconditional.ParseResult) :
  rowsOf src (p :: pages)
  = (toRow src <$> Unconditional.reviews p) ++ rowsOf src pages.
Proof. reflexivity. Qed.

(** What the loop does, whatever its end: it reads responses with status
    200 one after the other, and asks for each with the URL that [nextUrl]
    makes of the base URL and the token of the page before.  When it
    finishes, it has collected the rows of the pages read. *)
Lemma paginate_trace (src : SourceRow) (ep : Endpoint) (baseUrl : jsstring)
      (responses : list APIResponse) :
  forall token all requested,
  exists pages news,
    requestedIn (paginate src ep baseUrl token all requested responses)
    = requested ++ news
    /\ Forall2 (fun res p =>
                  status res = 200
                  /\ Unconditional.parseBatch (text res) ep = Ok p)
               (take (length pages) responses) pages
    /\ Forall2 (fun t u => truthy t = true /\ nextUrl ep baseUrl t = Ok u)
               (take (length news)
                     (token :: (Unconditional.token <$> pages)))
               news
    /\ forall all' requested',
         paginate src ep baseUrl token all requested responses
         = Finished all' requested' ->
         all' = all ++ rowsOf src pages
         /\ readThrough ep token responses pages (length news).
Proof.
  induction responses as [|res responses IH]; intros token all requested;
    rewrite paginate_unfold.
  - destruct (truthy token) eqn:Htok.
    + destruct (nextUrl ep baseUrl token) as [url|e] eqn:Hurl.
      * exists [], [url]. cbn [requestedIn length take fmap list_fmap].
        split; [reflexivity|]. split; [constructor|].
        split; [repeat constructor; assumption | discriminate].
      * exists [], []. cbn [requestedIn length take].
        split; [now rewrite app_nil_r|]. split; [constructor|].
        split; [constructor | discriminate].
    + exists [], []. cbn [requestedIn length take].
      split; [now rewrite app_nil_r|]. split; [constructor|].
      split; [constructor|].
      intros all' requested' [= <- <-]. split; [now rewrite app_nil_r|].
      split; [constructor|]. left. split; [reflexivity|].
      exists token. split; [reflexivity | exact Htok].
  - destruct (truthy token) eqn:Htok.
    + destruct (nextUrl ep baseUrl token) as [url|e] eqn:Hurl.
      * destruct (status res =? 200) eqn:Hst; cbn [negb].
        -- apply Z.eqb_eq in Hst.
           destruct (Unconditional.parseBatch (text res) ep) as [parsed|e]
             eqn:Hp.
           ++ destruct (IH (Unconditional.token parsed)
                           (all ++ (toRow src
                                      <$> Unconditional.reviews parsed))
                           (requested ++ [url]))
                as (pages & news & Hrq & Hpages & Hnews & Hfin).
              exists (parsed :: pages), (url :: news).
              split; [now rewrite Hrq, <- app_assoc|].
              split; [cbn [length take]; constructor; [now split | exact Hpages]|].
              split.
              { cbn [length take fmap list_fmap].
                constructor; [now split | exact Hnews]. }
              intros all' requested' Hrun.
              destruct (Hfin _ _ Hrun) as (-> & Hread & Hend).
              split; [now rewrite rowsOf_cons, app_assoc|].
              split; [cbn [length take]; constructor; [now split | exact Hread]|].
              cbn [length]. destruct Hend as [(Hn & t & Ht & Hf) | (Hn & r & Hr & Hs)].
              ** left. split; [now rewrite Hn|]. exists t. split; [|exact Hf].
                 cbn [fmap list_fmap]. exact Ht.
              ** right. split; [now rewrite Hn|]. exists r. now split.
           ++ exists [], [url]. cbn [requestedIn length take].
              split; [reflexivity|]. split; [constructor|].
              split; [repeat constructor; assumption | discriminate].
        -- apply Z.eqb_neq in Hst.
           exists [], [url]. cbn [requestedIn length take].
           split; [reflexivity|]. split; [constructor|].
           split; [repeat constructor; assumption|].
           intros all' requested' [= <- <-]. split; [now rewrite app_nil_r|].
           split; [constructor|]. right. split; [reflexivity|].
           exists res. now split.
      * exists [], []. cbn [requestedIn length take].
        split; [now rewrite app_nil_r|]. split; [constructor|].
        split; [constructor | discriminate].
    + exists [], []. cbn [requestedIn length take].
      split; [now rewrite app_nil_r|]. split; [constructor|].
      split; [constructor|].
      intros all' requested' [= <- <-]. split; [now rewrite app_nil_r|].
      split; [constructor|]. left. split; [reflexivity|].
      exists token. split; [reflexivity | exact Htok].
Qed.

(** The run of [scrapePlace] in terms of its loop. *)
Lemma scrapePlace_trace (src : SourceRow) (baseUrl firstText : jsstring)
      (responses : list APIResponse) (inserted : answer) :
  let ep := endpointOf baseUrl in
  let run := scrapePlace src baseUrl firstText responses inserted in
  (requestsOf run = [] /\ sentBy run = []
   /\ exists sent, run = Caught sent [])
  \/ exists first pages,
       Unconditional.parseBatch firstText ep = Ok first
       /\ Forall2 (fun res p =>
                     status res = 200
                     /\ Unconditional.parseBatch (text res) ep = Ok p)
                  (take (length pages) responses) pages
       /\ Forall2 (fun t u => truthy t = true /\ nextUrl ep baseUrl t = Ok u)
                  (take (length (requestsOf run))
                        (Unconditional.token
                           <$> first :: pages))
                  (requestsOf run)
       /\ match run with
          | Completed sent _ =>
              readThrough ep (Unconditional.token first) responses pages
                          (length (requestsOf run))
              /\ sent = match rowsOf src (first :: pages) with
                        | [] => []
                        | rows => [Insert rows]
                        end
              /\ (rowsOf src (first :: pages) = []
                  \/ resolves inserted = true)
          | Caught sent _ =>
              sent = []
              \/ (readThrough ep (Unconditional.token first) responses pages
                              (length (requestsOf run))
                  /\ sent = [Insert (rowsOf src (first :: pages))]
                  /\ resolves inserted = false)
          | Pending _ => True
          end.
Proof.
  cbv zeta. unfold scrapePlace.
  destruct (Unconditional.parseBatch firstText (endpointOf baseUrl))
    as [first|e] eqn:Hfirst; [|left; cbn; eauto].
  right.
  destruct (paginate_trace src (endpointOf baseUrl) baseUrl responses
              (Unconditional.token first)
              (toRow src <$> Unconditional.reviews first) [])
    as (pages & news & Hrq & Hpages & Hnews & Hfin).
  exists first, pages. split; [reflexivity|]. split; [exact Hpages|].
  destruct (paginate src (endpointOf baseUrl) baseUrl _ _ [] responses)
    as [all rq|e rq|all rq] eqn:Hrun; cbn [requestedIn app] in Hrq;
    subst rq.
  - destruct (Hfin _ _ eq_refl) as [Hall Hread].
    assert (Hrows : all = rowsOf src (first :: pages))
      by (now rewrite rowsOf_cons).
    clear Hall. unfold insert.
    destruct all as [|r0 all0] eqn:Eall; cbn [returned sent].
    + cbn [requestsOf]. split; [exact Hnews|].
      split; [exact Hread|]. rewrite <- Hrows. split; [reflexivity|].
      now left.
    + destruct (resolves inserted) eqn:Hres; cbn [requestsOf].
      * split; [exact Hnews|]. split; [exact Hread|].
        rewrite <- Hrows. split; [reflexivity | now right].
      * split; [exact Hnews|]. right. split; [exact Hread|].
        rewrite <- Hrows. now split.
  - cbn [requestsOf]. split; [exact Hnews | now left].
  - cbn [requestsOf]. split; [exact Hnews | exact I].
Qed.

(** X18: every request of [scrapePlace] after the first response is built
    from the URL of the first response and the token of the page read just
    before: the n-th request is what [nextUrl] makes of the base URL and
    the token of the n-th body, the first response being the first body
    and the response to a request the next; that token is truthy.  So the
    loop rewrites the base URL each time, never the previous request.
    When the base URL has no marker of its endpoint, every request is the
    base URL itself.  The run sends at most one request more than it
    receives responses. *)
Theorem requests_follow_tokens (src : SourceRow)
        (baseUrl firstText : jsstring) (responses : list APIResponse)
        (inserted : answer) :
  let ep := endpointOf baseUrl in
  let run := scrapePlace src baseUrl firstText responses inserted in
  (exists tokens,
      Forall2 (fun body t =>
                 exists parsed,
                   Unconditional.parseBatch body ep = Ok parsed
                   /\ Unconditional.token parsed = t)
              (take (length (requestsOf run))
                    (firstText :: (text <$> responses)))
              tokens
      /\ Forall2 (fun t u => truthy t = true /\ nextUrl ep baseUrl t = Ok u)
                 tokens (requestsOf run))
  /\ (includes (tagOf ep) baseUrl = false ->
      Forall (fun u => u = baseUrl) (requestsOf run))
  /\ (length (requestsOf run) <= S (length responses))%nat.
Proof.
  cbv zeta.
  assert (Hmain :
    exists tokens,
      Forall2 (fun body t =>
                 exists parsed,
                   Unconditional.parseBatch body (endpointOf baseUrl)
                   = Ok parsed
                   /\ Unconditional.token parsed = t)
              (take (length (requestsOf
                               (scrapePlace src baseUrl firstText responses
                                            inserted)))
                    (firstText :: (text <$> responses)))
              tokens
      /\ Forall2 (fun t u =>
                    truthy t = true
                    /\ nextUrl (endpointOf baseUrl) baseUrl t = Ok u)
                 tokens
                 (requestsOf (scrapePlace src baseUrl firstText responses
                                          inserted))
      /\ (length (requestsOf (scrapePlace src baseUrl firstText responses
                                          inserted))
          <= S (length responses))%nat).
  { pose proof (scrapePlace_trace src baseUrl firstText responses inserted)
      as Htrace.
    cbv zeta in Htrace.
    destruct Htrace
      as [(Hrq & _) | (first & pages & Hfirst & Hpages & Hnews & _)].
    - rewrite Hrq. exists []. cbn [length take].
      split; [constructor|]. split; [constructor | lia].
    - set (n := length (requestsOf _)) in *.
      pose proof (Forall2_length _ _ _ Hpages) as Hk.
      pose proof (Forall2_length _ _ _ Hnews) as Hn.
      rewrite length_take in Hk. rewrite length_take, length_fmap in Hn.
      cbn [length] in Hn.
      assert (Hle : (n <= S (length pages))%nat) by lia.
      assert (Hkle : (length pages <= length responses)%nat) by lia.
      exists (take n (Unconditional.token <$> first :: pages)).
      split; [|split; [exact Hnews | lia]].
      rewrite <- fmap_take. apply Forall2_fmap_r.
      assert (Hall : Forall2 (fun body p =>
                                Unconditional.parseBatch
                                  body (endpointOf baseUrl) = Ok p)
                             (take (S (length pages))
                                   (firstText :: (text <$> responses)))
                             (first :: pages)).
      { cbn [take]. constructor; [exact Hfirst|].
        rewrite <- fmap_take. apply Forall2_fmap_l.
        eapply Forall2_impl; [exact Hpages|]. now intros res p [_ Hp]. }
      apply (Forall2_take _ _ _ n) in Hall.
      rewrite take_take in Hall.
      replace (n `min` S (length pages))%nat with n in Hall by lia.
      eapply Forall2_impl; [exact Hall|].
      intros body p Hp. exists p. split; [exact Hp | reflexivity]. }
  destruct Hmain as (tokens & Hbodies & Hurls & Hlen).
  split; [eauto|]. split; [|exact Hlen].
  intros Hno. apply match_marker_None in Hno.
  clear Hbodies Hlen. induction Hurls as [|t u ts us [_ Hu] _ IH]; constructor.
  - unfold nextUrl in Hu. rewrite Hno in Hu. congruence.
  - exact IH.
Qed.

(** On a run of two pages, and on a base URL without a marker. *)
Lemma requests_follow_tokens_witness :
  (exists tokens,
      Forall2 (fun body t =>
                 exists parsed,
                   Unconditional.parseBatch body (endpointOf acmeUrl)
                   = Ok parsed
                   /\ Unconditional.token parsed = t)
              (take (length (requestsOf
                               (scrapePlace acme acmeUrl pageOne
                                            [ok200 pageOther] (Rows []))))
                    (pageOne :: (text <$> [ok200 pageOther])))
              tokens
      /\ Forall2 (fun t u =>
                    truthy t = true
                    /\ nextUrl (endpointOf acmeUrl) acmeUrl t = Ok u)
                 tokens
                 (requestsOf (scrapePlace acme acmeUrl pageOne
                                          [ok200 pageOther] (Rows []))))
  /\ Forall (fun u => u = lit "https://host/listugcposts")
            (requestsOf (scrapePlace acme (lit "https://host/listugcposts")
                                     pageOne [ok200 pageOne; ok200 pageOther]
                                     (Rows []))).
Proof.
  split.
  - exact (proj1 (requests_follow_tokens acme acmeUrl pageOne
                                         [ok200 pageOther] (Rows []))).
  - apply (proj1 (proj2 (requests_follow_tokens
                           acme (lit "https://host/listugcposts") pageOne
                           [ok200 pageOne; ok200 pageOther] (Rows [])))).
    vm_compute. reflexivity.
Defined.



(** A run of two pages: one request, with the escaped token of the first
    page, and one statement with the rows of both pages. *)
Example scrapePlace_two_pages :
  scrapePlace acme acmeUrl pageOne [ok200 pageOther] (Rows [])
  = Completed
      [Insert (rowsOf acme [ {| Unconditional.reviews :=
                                  [ {| Unconditional.review_id := lit "id";
                                       Unconditional.author := [];
                                       Unconditional.rating :=
                                         Some (num_of_Z 4);
                                       Unconditional.review_text := [];
                                       Unconditional.review_date := [];
                                       Unconditional.images := [] |} ];
                                Unconditional.token := VNull |};
                             {| Unconditional.reviews :=
                                  [ {| Unconditional.review_id := lit "id2";
                                       Unconditional.author := [];
                                       Unconditional.rating :=
                                         Some (num_of_Z 5);
                                       Unconditional.review_text := [];
                                       Unconditional.review_date := [];
                                       Unconditional.images := [] |} ];
                                Unconditional.token := VNull |} ])]
      [lit "https://host/listugcposts?pb=!1sX!2st%2B1!4m5"].
Proof. vm_compute. reflexivity. Qed.

End Driver.
